(** * ESPHome YAML loader ([esphome/yaml_util.py]): a shallow embedding

    The development follows the Python module function by function.  Python
    objects become an inductive type of values, the loader's mutable fields
    and the module-level globals become an explicit state, and exceptions
    become a result that keeps the state reached when they were raised.

    Outside the module's own code, the collaborators it calls (the template
    engine, PyYAML's parser and scalar constructors, the file reader, the
    process environment...) are the fields of a class, so that every theorem
    holds for any implementation of them.

    Origin metadata attached to values ([make_data_base], [from_node]) is not
    modelled: values are compared up to their annotations.  Documents are
    trees: anchors and aliases are expanded by the composer. *)

From Stdlib Require Import String Ascii List ZArith Bool Lia Floats.
From Stdlib Require Import DecimalString.
Import ListNotations.
Open Scope string_scope.
Open Scope list_scope.

Set Implicit Arguments.
Set Warnings "-register-all".

(** ** Insertion-ordered dictionaries

    A Python [dict] (or [OrderedDict]) is an association list whose keys are
    pairwise distinct, in insertion order.  Assigning to an existing key keeps
    its position. *)

Section Dict.
Variables K V : Type.
Variable eqb : K -> K -> bool.

Fixpoint dict_get (d : list (K * V)) (k : K) : option V :=
  match d with
  | [] => None
  | (k', v) :: r => if eqb k' k then Some v else dict_get r k
  end.

Definition dict_mem (d : list (K * V)) (k : K) : bool :=
  match dict_get d k with Some _ => true | None => false end.

Fixpoint dict_set (d : list (K * V)) (k : K) (v : V) : list (K * V) :=
  match d with
  | [] => [(k, v)]
  | (k', v') :: r =>
      if eqb k' k then (k', v) :: r else (k', v') :: dict_set r k v
  end.

Fixpoint dict_del (d : list (K * V)) (k : K) : list (K * V) :=
  match d with
  | [] => []
  | (k', v') :: r => if eqb k' k then r else (k', v') :: dict_del r k
  end.

(** [d.update(other)], also [{**d, **other}] and [OrderedDict(pairs)]. *)
Definition dict_update (d other : list (K * V)) : list (K * V) :=
  fold_left (fun acc kv => dict_set acc (fst kv) (snd kv)) other d.

Definition dict_keys (d : list (K * V)) : list K := map fst d.
Definition dict_values (d : list (K * V)) : list V := map snd d.
End Dict.

Definition OrderedDict (V : Type) (pairs : list (string * V)) : list (string * V) :=
  dict_update String.eqb [] pairs.

(** ** Python values *)

(** Objects that only reach the dumper: they are produced by validation, never
    by the loader, and are rendered through [str()]. *)
Inductive foreign : Type :=
| IPAddress (str : string)
| MACAddress (str : string)
| TimePeriod (str : string)
| UUID (str : string).

Inductive value : Type :=
| VNone
| VBool (b : bool)
| VInt (z : Z)
| VFloat (f : float)
| VStr (s : string)
| VForce (s : string)               (* a [str] that also is an [ESPForceValue] *)
| VBytes (s : string)
| VList (l : list value)
| VForList (l : list value)         (* [class ForList(list)] *)
| VDict (d : list (string * value))
| VLambda (code : string)           (* [esphome.core.Lambda] *)
| VID (id : string)                 (* [esphome.core.ID] *)
| VForeign (o : foreign).

Definition dict := list (string * value).

Definition CONF_ID := "id".
Definition CONF_SUBSTITUTIONS := "substitutions".
Definition SECRET_YAML := "secrets.yaml".


Definition isinstance_list (v : value) : bool :=
  match v with VList _ | VForList _ => true | _ => false end.


(** [hash(key)] raises [TypeError] on lists and dictionaries. *)
Definition hashable (v : value) : bool :=
  match v with VList _ | VForList _ | VDict _ => false | _ => true end.

(** Python truthiness, as used by [if condition:] and by [x or y]. *)
Definition truthy (v : value) : bool :=
  match v with
  | VNone => false
  | VBool b => b
  | VInt z => negb (z =? 0)%Z
  | VFloat f => negb (PrimFloat.eqb f 0%float)
  | VStr s | VForce s | VBytes s => negb (s =? "")
  | VList l | VForList l => match l with [] => false | _ => true end
  | VDict d => match d with [] => false | _ => true end
  | VLambda _ | VID _ | VForeign _ => true
  end.

Definition foreign_str (o : foreign) : string :=
  match o with
  | IPAddress s | MACAddress s | TimePeriod s | UUID s => s
  end.

(** ** Source positions and parse nodes *)

Record Mark : Type := mkMark { mark_name : string; mark_line : nat; mark_column : nat }.

Inductive node : Type :=
| ScalarNode (tag : string) (value : string) (start_mark : Mark)
| SequenceNode (tag : string) (value : list node) (start_mark : Mark)
| MappingNode (tag : string) (value : list (node * node)) (start_mark : Mark).

Definition node_tag (n : node) : string :=
  match n with
  | ScalarNode t _ _ | SequenceNode t _ _ | MappingNode t _ _ => t
  end.

Definition node_start_mark (n : node) : Mark :=
  match n with
  | ScalarNode _ _ m | SequenceNode _ _ m | MappingNode _ _ m => m
  end.

Definition tag_null := "tag:yaml.org,2002:null".
Definition tag_bool := "tag:yaml.org,2002:bool".
Definition tag_int := "tag:yaml.org,2002:int".
Definition tag_float := "tag:yaml.org,2002:float".
Definition tag_binary := "tag:yaml.org,2002:binary".
Definition tag_timestamp := "tag:yaml.org,2002:timestamp".
Definition tag_str := "tag:yaml.org,2002:str".
Definition tag_seq := "tag:yaml.org,2002:seq".
Definition tag_map := "tag:yaml.org,2002:map".
Definition tag_merge := "tag:yaml.org,2002:merge".
Definition tag_value := "tag:yaml.org,2002:value".

Definition DEFAULT_SCALAR_TAG := tag_str.
Definition DEFAULT_SEQUENCE_TAG := tag_seq.
Definition DEFAULT_MAPPING_TAG := tag_map.

(** ** Exceptions *)

Inductive yaml_error_class : Type := MarkedYAMLError | ConstructorError | ParserError.

(** [yaml.MarkedYAMLError(context, context_mark, problem, problem_mark)] and
    its subclasses take their arguments in this order; the module passes them
    positionally. *)
Inductive exn : Type :=
| YAMLError (cls : yaml_error_class)
            (context : option string) (context_mark : option Mark)
            (problem : option string) (problem_mark : option Mark)
| EsphomeError (cause : exn)
| Invalid (msg : string) (path : list string)      (* [cv.Invalid] *)
| KeyError (key : string)
| TypeError (what : string)
| ValueError (what : string)
| IndexError
| AttributeError (what : string)
| AssertionError
| OSError (path : string)
| Unmodelled (tag : string)          (* an inherited container constructor: omap, pairs, set *)
| IncludeDepthExceeded.              (* the bound on nested file loads was reached *)

Definition is_YAMLError (e : exn) : bool :=
  match e with YAMLError _ _ _ _ _ => true | _ => false end.

Inductive result (A : Type) : Type :=
| Ok (a : A)
| Raise (e : exn).

Arguments Ok {A} a.
Arguments Raise {A} e.

(** ** The state: loader fields, module globals, the collaborators' traces *)

Record state : Type := mkState {
  loader_name : string;               (* [loader.name] *)
  loader_vars : nat;                  (* [loader.vars], a reference to a dict *)
  disable_str_expansion : bool;       (* [loader.disable_str_expansion] *)
  heap : list dict;                   (* the variable dictionaries, by reference *)
  SECRET_VALUES : list (string * string);   (* [_SECRET_VALUES] *)
  SECRET_CACHE : list (string * value);     (* [_SECRET_CACHE] *)
  reads : list string;                (* paths handed to the file reader, in order *)
  stdout : list value                 (* objects handed to [print] *)
}.

Definition set_loader (name : string) (vars : nat) (disable : bool) (s : state) : state :=
  mkState name vars disable (heap s) (SECRET_VALUES s) (SECRET_CACHE s) (reads s) (stdout s).

Definition set_vars (a : nat) (s : state) : state :=
  set_loader (loader_name s) a (disable_str_expansion s) s.

Definition set_disable (b : bool) (s : state) : state :=
  set_loader (loader_name s) (loader_vars s) b s.

Definition set_heap (h : list dict) (s : state) : state :=
  mkState (loader_name s) (loader_vars s) (disable_str_expansion s)
          h (SECRET_VALUES s) (SECRET_CACHE s) (reads s) (stdout s).

Definition set_SECRET_VALUES (r : list (string * string)) (s : state) : state :=
  mkState (loader_name s) (loader_vars s) (disable_str_expansion s)
          (heap s) r (SECRET_CACHE s) (reads s) (stdout s).

Definition set_SECRET_CACHE (c : list (string * value)) (s : state) : state :=
  mkState (loader_name s) (loader_vars s) (disable_str_expansion s)
          (heap s) (SECRET_VALUES s) c (reads s) (stdout s).

Definition set_reads (r : list string) (s : state) : state :=
  mkState (loader_name s) (loader_vars s) (disable_str_expansion s)
          (heap s) (SECRET_VALUES s) (SECRET_CACHE s) r (stdout s).

Definition set_stdout (o : list value) (s : state) : state :=
  mkState (loader_name s) (loader_vars s) (disable_str_expansion s)
          (heap s) (SECRET_VALUES s) (SECRET_CACHE s) (reads s) o.

(** ** The monad of the construction pass *)

Definition M (A : Type) : Type := state -> result A * state.

Definition ret {A : Type} (a : A) : M A := fun s => (Ok a, s).

Definition bind {A B : Type} (m : M A) (k : A -> M B) : M B :=
  fun s => match m s with
           | (Ok a, s') => k a s'
           | (Raise e, s') => (Raise e, s')
           end.

Definition raise {A : Type} (e : exn) : M A := fun s => (Raise e, s).

Definition gets {A : Type} (f : state -> A) : M A := fun s => (Ok (f s), s).

Definition modify (f : state -> state) : M unit := fun s => (Ok tt, f s).

Definition lift_result {A : Type} (r : result A) : M A := fun s => (r, s).

Declare Scope monad_scope.
Delimit Scope monad_scope with monad.
Notation "x <- c1 ;; c2" := (bind c1 (fun x => c2))
  (at level 61, c1 at next level, right associativity) : monad_scope.
Notation "c1 ;; c2" := (bind c1 (fun _ => c2))
  (at level 61, right associativity) : monad_scope.
Open Scope monad_scope.

(** [[f(x) for x in xs]] with effects, left to right. *)
Fixpoint sequence {A : Type} (ms : list (M A)) : M (list A) :=
  match ms with
  | [] => ret []
  | m :: r => x <- m ;; xs <- sequence r ;; ret (x :: xs)
  end.

(** [for x in xs: acc = body(x, acc)]. *)
Fixpoint for_each {A B : Type} (xs : list A) (body : A -> B -> M B) (acc : B) : M B :=
  match xs with
  | [] => ret acc
  | x :: r => acc' <- body x acc ;; for_each r body acc'
  end.

(** The dictionary [self.vars] refers to. *)
Definition deref (s : state) (a : nat) : dict := nth a (heap s) [].

Definition alloc (d : dict) : M nat :=
  fun s => (Ok (length (heap s)), set_heap (heap s ++ [d]) s).

Fixpoint list_set {A : Type} (l : list A) (i : nat) (x : A) : list A :=
  match l, i with
  | [], _ => []
  | _ :: r, O => x :: r
  | y :: r, S j => y :: list_set r j x
  end.

Definition store (a : nat) (d : dict) : M unit :=
  modify (fun s => set_heap (list_set (heap s) a d) s).

(** ** Collaborators

    Code that the module imports or inherits.  [expand_str] and
    [validate_vars] come from [esphome.jinja]; [compose] and
    [safe_construct_scalar] stand for PyYAML's parser and for the scalar
    constructors of [yaml.SafeLoader] that the loader inherits (null, bool,
    int, float, binary, timestamp), [emit] for its serialiser; the rest is the
    Python runtime, the file system and the process environment. *)

Inductive jinja_result : Type :=
| Expanded (s : string)
| UndefinedError (message : string)
| TemplateSyntaxError (lineno : nat) (message : string)
| TemplateError (message : string)
| OtherException (str : string).

(** What the representers of the dumper build: the nodes PyYAML serialises. *)
Inductive rnode : Type :=
| RScalar (tag : string) (value : string) (style : option string)
| RSequence (tag : string) (items : list rnode) (flow_style : option bool)
| RMapping (tag : string) (items : list (rnode * rnode)) (flow_style : option bool).

(** A directory as [os.walk] sees it: its files and its sub-directories. *)
Inductive dirtree : Type :=
| Dir (files : list string) (dirs : list (string * dirtree)).

Class Collaborators : Type := {
  expand_str : string -> dict -> jinja_result;
  validate_vars : value -> result dict;
  compose : string -> result (option node);
  safe_construct_scalar : string -> string -> result value;
  float_repr : float -> string;
  container_repr : value -> string;
  type_repr : value -> string;
  nat_repr : nat -> string;
  read_config_file : string -> result string;
  environ : string -> option string;
  path_join : string -> string -> string;
  path_dirname : string -> string;
  path_stem : string -> string;
  listdir : string -> option dirtree;
  filter_yaml_files : list string -> list string;
  base64_encode : string -> string;
  emit : rnode -> string;
  INCLUDE_SCHEMA : dict -> result dict;
  git_clone_or_update : value -> value -> value -> value -> value -> result string
}.

Section Python.
Context {C : Collaborators}.

(** [str(v)]. *)
Definition py_str (v : value) : string :=
  match v with
  | VNone => "None"
  | VBool true => "True"
  | VBool false => "False"
  | VInt z => NilZero.string_of_int (Z.to_int z)
  | VFloat f => float_repr f
  | VStr s | VForce s => s
  | VLambda code => code
  | VID id => id
  | VForeign o => foreign_str o
  | VBytes _ | VList _ | VForList _ | VDict _ => container_repr v
  end.

(** [d.get(k)]: [None] when the key is absent. *)
Definition py_get (d : dict) (k : string) : value :=
  match dict_get String.eqb d k with Some v => v | None => VNone end.

Definition is_None (v : value) : bool :=
  match v with VNone => true | _ => false end.

(** [s in t] for two strings. *)
Fixpoint is_substring (s t : string) : bool :=
  String.prefix s t ||
  match t with
  | EmptyString => false
  | String _ t' => is_substring s t'
  end.

(** [v == s] for a string [s]. *)
Definition eq_str (v : value) (s : string) : bool :=
  match v with VStr s' | VForce s' => (s' =? s) | _ => false end.

(** [s in container] for a string [s]: key membership for a dict, element
    membership for a list, substring test for a string, [TypeError] else. *)
Definition py_contains (container : value) (s : string) : result bool :=
  match container with
  | VDict d => Ok (dict_mem String.eqb d s)
  | VList l | VForList l => Ok (existsb (fun x => eq_str x s) l)
  | VStr t | VForce t => Ok (is_substring s t)
  | _ => Raise (TypeError "argument is not iterable")
  end.

(** [container[s]] for a string [s]. *)
Definition py_getitem (container : value) (s : string) : result value :=
  match container with
  | VDict d => match dict_get String.eqb d s with
               | Some v => Ok v
               | None => Raise (KeyError s)
               end
  | _ => Raise (TypeError "indices must be integers")
  end.

Definition is_space (c : ascii) : bool :=
  let n := nat_of_ascii c in
  (n =? 32)%nat || ((9 <=? n)%nat && (n <=? 13)%nat) || ((28 <=? n)%nat && (n <=? 31)%nat).

(** [s.split()]: the maximal runs of non-blank characters. *)
Fixpoint split_ws (s : string) (word : string) : list string :=
  match s with
  | EmptyString => match word with EmptyString => [] | _ => [word] end
  | String c r =>
      if is_space c
      then match word with
           | EmptyString => split_ws r EmptyString
           | _ => word :: split_ws r EmptyString
           end
      else split_ws r (word ++ String c EmptyString)%string
  end.

Definition split (s : string) : list string := split_ws s EmptyString.

(** [sep.join(words)]. *)
Fixpoint join (sep : string) (words : list string) : string :=
  match words with
  | [] => EmptyString
  | [w] => w
  | w :: r => (w ++ sep ++ join sep r)%string
  end.

Fixpoint ends_with (suffix s : string) : bool :=
  (s =? suffix) ||
  match s with
  | EmptyString => false
  | String _ r => ends_with suffix r
  end.

(** *** [flatten_for], the helper of [construct_sequence] *)

Fixpoint flatten_item (item : value) : list value :=
  match item with
  | VForList l => flat_map flatten_item l
  | VNone => []
  | _ => [item]
  end.

Definition flatten_for (items : list value) : list value :=
  flat_map flatten_item items.

(** *** [merge], the helper of [construct_merge] *)

(** The keys of [index]: an [id] rendered by [str], or a position. *)
Inductive index_key : Type :=
| IdKey (id : string)
| PosKey (pos : nat).

Definition index_key_eqb (a b : index_key) : bool :=
  match a, b with
  | IdKey x, IdKey y => (x =? y)
  | PosKey x, PosKey y => (x =? y)%nat
  | _, _ => false
  end.

(** [str(item[CONF_ID])] when [isinstance(item, dict) and CONF_ID in item]. *)
Definition item_id (item : value) : option string :=
  match item with
  | VDict d => match dict_get String.eqb d CONF_ID with
               | Some i => Some (py_str i)
               | None => None
               end
  | _ => None
  end.

Definition index_step (acc : list (index_key * value) * nat) (item : value)
  : list (index_key * value) * nat :=
  let (index, pos) := acc in
  match item_id item with
  | Some id => (dict_set index_key_eqb index (IdKey id) item, pos)
  | None => (dict_set index_key_eqb index (PosKey pos) item, S pos)
  end.

Definition build_index (new : list value) : list (index_key * value) :=
  fst (fold_left index_step new ([], O)).

Fixpoint value_height (v : value) : nat :=
  match v with
  | VList l | VForList l => S (list_max (map value_height l))
  | VDict d => S (list_max (map (fun kv => value_height (snd kv)) d))
  | _ => O
  end.

Section MergeBody.
(** One unfolding of [merge]; [rec] is the recursive call. *)
Variable rec : value -> value -> value.

Definition merge_dict_step (old : dict) (res : dict) (kv : string * value) : dict :=
  let (k, v) := kv in
  dict_set String.eqb res k
    (match dict_get String.eqb old k with
     | Some o => rec o v
     | None => v
     end).

Definition merge_list_step (acc : list value * list (index_key * value)) (item : value)
  : list value * list (index_key * value) :=
  let (merged_old, index) := acc in
  match item_id item with
  | Some id =>
      match dict_get index_key_eqb index (IdKey id) with
      | Some new_item =>
          (merged_old ++ [rec item new_item], dict_del index_key_eqb index (IdKey id))
      | None => (merged_old ++ [item], index)
      end
  | None => (merged_old ++ [item], index)
  end.

Definition merge_lists (old new : list value) : list value :=
  let (merged_old, index) := fold_left merge_list_step old ([], build_index new) in
  merged_old ++ dict_values index.

Definition merge_body (old new : value) : value :=
  match new with
  | VDict nd =>
      match old with
      | VDict od => VDict (fold_left (merge_dict_step od) nd od)
      | _ => new
      end
  | VList nl | VForList nl =>
      match old with
      | VList ol | VForList ol => VList (merge_lists ol nl)
      | _ => new
      end
  | VNone => old
  | _ => new
  end.
End MergeBody.

(** The recursion of [merge] descends into [new]; [fuel] bounds its depth. *)
Fixpoint merge_fuel (fuel : nat) (old new : value) : value :=
  match fuel with
  | O => new
  | S fuel' => merge_body (merge_fuel fuel') old new
  end.

Definition merge (old new : value) : value :=
  merge_fuel (S (value_height new)) old new.

End Python.

(** ** The construction pass: [class ESPHomeLoader]

    A handler receives the node and a view of it in which every child comes
    with the computation that constructs it: running that computation is the
    call [self.construct_object(child)].  The key of a mapping entry takes the
    tag to dispatch on, because [construct_yaml_map] may reset it first. *)

Record entry : Type := mk_entry {
  key_tag : string;
  key_mark : Mark;
  key_construct : string -> M value;
  value_mark : Mark;
  value_construct : M value
}.

Inductive view : Type :=
| ScalarView (text : string)
| SequenceView (children : list (M value))
| MappingView (entries : list entry).

Record map_acc : Type := mk_acc {
  pairs : dict;
  merge_pairs : dict;
  seen_keys : list (string * option Mark)
}.

Definition CONF_FILE := "file".
Definition CONF_URL := "url".
Definition CONF_USERNAME := "username".
Definition CONF_PASSWORD := "password".
Definition CONF_REF := "ref".
Definition CONF_REFRESH := "refresh".
Definition CONF_VARS := "vars".

Definition quote : string := String "034"%char EmptyString.

Definition marked (cls : yaml_error_class) (context : string) (mark : Mark) : exn :=
  YAMLError cls (Some context) (Some mark) None None.

Definition expected (kind found : string) (mark : Mark) : exn :=
  YAMLError ConstructorError None None
    (Some ("expected a " ++ kind ++ " node, but found " ++ found)%string) (Some mark).

Definition _is_file_valid (name : string) : bool := negb (String.prefix "." name).

Section Construct.
Context {C : Collaborators}.

(** [_load_yaml_internal], for the files this loader includes. *)
Variable load : string -> option nat -> bool -> M value.

Definition get_vars : M dict := gets (fun s => deref s (loader_vars s)).

(** [self.vars.copy()] *)
Definition copy_vars : M nat := vars <- get_vars ;; alloc vars.

Definition _rel_path (arg : string) : M string :=
  gets (fun s => path_join (path_dirname (loader_name s)) arg).

(** [SafeConstructor.construct_scalar] *)
Fixpoint construct_scalar (n : node) : result string :=
  match n with
  | ScalarNode _ text _ => Ok text
  | SequenceNode _ _ mark => Raise (expected "scalar" "sequence" mark)
  | MappingNode _ pairs mark =>
      (fix find (ps : list (node * node)) : result string :=
         match ps with
         | [] => Raise (expected "scalar" "mapping" mark)
         | (key_node, value_node) :: r =>
             if node_tag key_node =? tag_value then construct_scalar value_node else find r
         end) pairs
  end.

(** The scalar constructors inherited from [yaml.SafeLoader]. *)
Definition construct_inherited (tag : string) (n : node) : M value :=
  text <- lift_result (construct_scalar n) ;;
  lift_result (safe_construct_scalar tag text).

Definition construct_yaml_str (n : node) : M value :=
  st <- lift_result (construct_scalar n) ;;
  disable <- gets disable_str_expansion ;;
  if disable then ret (VStr st) else
  vars <- get_vars ;;
  match expand_str st vars with
  | Expanded result => ret (VStr result)
  | UndefinedError message =>
      raise (marked MarkedYAMLError ("Variable is undefined: " ++ message)%string
               (node_start_mark n))
  | TemplateSyntaxError lineno message =>
      raise (marked MarkedYAMLError
               ("Error in line " ++ nat_repr lineno ++ " of jinja expression: " ++ message)%string
               (node_start_mark n))
  | TemplateError message =>
      raise (marked MarkedYAMLError ("Error in jinja expression: " ++ message)%string
               (node_start_mark n))
  | OtherException err =>
      raise (marked MarkedYAMLError ("Error in jinja expression: " ++ err)%string
               (node_start_mark n))
  end.

Definition construct_sequence (n : node) (v : view) : M (list value) :=
  match v with
  | SequenceView children => items <- sequence children ;; ret (flatten_for items)
  | ScalarView _ => raise (expected "sequence" "scalar" (node_start_mark n))
  | MappingView _ => raise (expected "sequence" "mapping" (node_start_mark n))
  end.

Definition construct_yaml_seq (n : node) (v : view) : M value :=
  data <- construct_sequence n v ;; ret (VList data).

(** *** [construct_yaml_map] *)

(** The body of the first loop for a key that is not [<<]. *)
Definition collect_pair (e : entry) (a : map_acc) : M map_acc :=
  old_disable <- gets disable_str_expansion ;;
  modify (set_disable true) ;;
  key <- key_construct e (if key_tag e =? tag_value then tag_str else key_tag e) ;;
  modify (set_disable old_disable) ;;
  value <- value_construct e ;;
  if negb (hashable key)
  then raise (marked ConstructorError
                ("Invalid key " ++ quote ++ py_str key ++ quote ++ " (not hashable)")%string
                (key_mark e))
  else
    let key := py_str key in
    match dict_get String.eqb (seen_keys a) key with
    | Some previous =>
        raise (YAMLError ConstructorError
                 (Some ("Duplicate key " ++ quote ++ key ++ quote)%string) (Some (key_mark e))
                 (Some "NOTE: Previous declaration here:") previous)
    | None =>
        ret (mk_acc (pairs a ++ [(key, value)]) (merge_pairs a)
               (dict_set String.eqb (seen_keys a) key (Some (key_mark e))))
    end.

(** The body of the first loop for the merge key [<<]. *)
Definition collect_merge (n : node) (e : entry) (a : map_acc) : M map_acc :=
  value <- value_construct e ;;
  match value with
  | VDict d => ret (mk_acc (pairs a) (merge_pairs a ++ d) (seen_keys a))
  | VList l | VForList l =>
      mp <- for_each l
              (fun item mp =>
                 match item with
                 | VDict d => ret (mp ++ d)
                 | _ => raise (YAMLError ConstructorError
                                 (Some "While constructing a mapping") (Some (node_start_mark n))
                                 (Some ("Expected a mapping for merging, but found "
                                          ++ type_repr item)%string)
                                 (Some (value_mark e)))
                 end)
              (merge_pairs a) ;;
      ret (mk_acc (pairs a) mp (seen_keys a))
  | _ => raise (YAMLError ConstructorError
                  (Some "While constructing a mapping") (Some (node_start_mark n))
                  (Some ("Expected a mapping or list of mappings for merging, but found "
                           ++ type_repr value)%string)
                  (Some (value_mark e)))
  end.

Definition collect_entry (n : node) (e : entry) (a : map_acc) : M map_acc :=
  if key_tag e =? tag_merge then collect_merge n e a else collect_pair e a.

(** The first loop: [for key_node, value_node in node.value]. *)
Definition collect (n : node) (entries : list entry) : M map_acc :=
  for_each entries (collect_entry n) (mk_acc [] [] []).

(** The body of the second loop: [for key, value in merge_pairs]. *)
Definition adopt_step (acc : dict * list (string * option Mark)) (kv : string * value)
  : dict * list (string * option Mark) :=
  let (ps, seen) := acc in
  if dict_mem String.eqb seen (fst kv)
  then acc
  else (ps ++ [kv], dict_set String.eqb seen (fst kv) None).

(** The second loop; with no merge pair it leaves [pairs] as it is, which is
    what the guard [if merge_pairs:] does. *)
Definition adopt (a : map_acc) : dict :=
  fst (fold_left adopt_step (merge_pairs a) (pairs a, seen_keys a)).

Definition construct_yaml_map (n : node) (v : view) : M value :=
  match v with
  | MappingView entries =>
      a <- collect n entries ;;
      ret (VDict (OrderedDict (adopt a)))
  | _ => raise AssertionError
  end.

(** *** Directives *)

Definition construct_env_var (n : node) (v : view) : M value :=
  match v with
  | ScalarView text =>
      match split text with
      | [] => raise IndexError
      | [name] =>
          match environ name with
          | Some val => ret (VStr val)
          | None => raise (marked MarkedYAMLError
                             ("Environment variable '" ++ text ++ "' not defined")%string
                             (node_start_mark n))
          end
      | name :: default =>
          ret (VStr (match environ name with Some val => val | None => join " " default end))
      end
  | _ => raise (AttributeError "split")
  end.

Definition construct_secret (n : node) (v : view) : M value :=
  path <- _rel_path SECRET_YAML ;;
  vars <- copy_vars ;;
  secrets <- load path (Some vars) false ;;
  match v with
  | ScalarView name =>
      present <- lift_result (py_contains secrets name) ;;
      if negb present
      then raise (marked MarkedYAMLError ("Secret '" ++ name ++ "' not defined")%string
                    (node_start_mark n))
      else
        val <- lift_result (py_getitem secrets name) ;;
        modify (fun s => set_SECRET_VALUES
                           (dict_set String.eqb (SECRET_VALUES s) (py_str val) name) s) ;;
        ret val
  | _ => raise (TypeError "unhashable type")
  end.

Definition extract_file_vars (n : node) (v : view) : M (string * dict) :=
  m <- construct_yaml_map n v ;;
  match m with
  | VDict d =>
      fields <- lift_result (INCLUDE_SCHEMA d) ;;
      let file := py_get fields CONF_FILE in
      let url := py_get fields CONF_URL in
      match file with
      | VNone => raise (marked MarkedYAMLError "Must include 'file'" (node_start_mark n))
      | VStr f | VForce f =>
          let vars := if truthy (py_get fields CONF_VARS)
                      then py_get fields CONF_VARS else VDict [] in
          path <- (if is_None url
                   then _rel_path f
                   else
                     refresh <- lift_result (py_getitem (VDict fields) CONF_REFRESH) ;;
                     repo_dir <- lift_result
                                   (git_clone_or_update url (py_get fields CONF_REF) refresh
                                      (py_get fields CONF_USERNAME)
                                      (py_get fields CONF_PASSWORD)) ;;
                     ret (path_join repo_dir f)) ;;
          vars <- lift_result (validate_vars vars) ;;
          ret (path, vars)
      | _ => raise (TypeError "expected str, bytes or os.PathLike object")
      end
  | _ => raise (TypeError "schema expects a mapping")
  end.

Definition construct_include (n : node) (v : view) : M value :=
  pv <- match v with
        | MappingView _ => extract_file_vars n v
        | ScalarView file => path <- _rel_path file ;; ret (path, [])
        | SequenceView _ => raise (TypeError "expected str, bytes or os.PathLike object")
        end ;;
  parent <- get_vars ;;
  vars <- alloc (dict_update String.eqb parent (snd pv)) ;;
  load (fst pv) (Some vars) false.

Definition construct_literal (n : node) (v : view) : M value :=
  old_disable <- gets disable_str_expansion ;;
  modify (set_disable true) ;;
  result <- match v with
            | ScalarView _ => construct_yaml_str n
            | SequenceView _ => construct_yaml_seq n v
            | MappingView _ => construct_yaml_map n v
            end ;;
  modify (set_disable old_disable) ;;
  ret result.

(** [for key_node, value_node in node.value] over something that is not the
    list of pairs of a mapping node: nothing to do when it is empty, a failed
    unpacking otherwise. *)
Definition unpack_failure (v : view) : option exn :=
  match v with
  | ScalarView EmptyString => None
  | ScalarView _ => Some (ValueError "not enough values to unpack")
  | SequenceView [] => None
  | SequenceView _ => Some (TypeError "cannot unpack non-iterable node")
  | MappingView _ => None
  end.

Definition view_entries (v : view) : list entry :=
  match v with MappingView entries => entries | _ => [] end.

Definition for_fields (e : entry) (acc : value * value * option (M value))
  : M (value * value * option (M value)) :=
  let '(items, varname, repeat) := acc in
  key <- key_construct e (key_tag e) ;;
  items <- (if eq_str key "items" then value_construct e else ret items) ;;
  varname <- (if eq_str key "var" then value_construct e else ret varname) ;;
  ret (items, varname, if eq_str key "repeat" then Some (value_construct e) else repeat).

(** One iteration of [for i in items] in [construct_for]. *)
Definition for_iteration (oldvars : nat) (varname : string) (repeat : M value)
           (i : value) (result : list value) : M (list value) :=
  old <- gets (fun s => deref s oldvars) ;;
  vars <- alloc old ;;
  modify (set_vars vars) ;;
  d <- gets (fun s => deref s vars) ;;
  store vars (dict_set String.eqb d varname i) ;;
  obj <- repeat ;;
  ret (result ++ [obj]).

Definition construct_for (n : node) (v : view) : M value :=
  disable <- gets disable_str_expansion ;;
  if disable then ret VNone else
  match unpack_failure v with
  | Some e => raise e
  | None =>
      fields <- for_each (view_entries v) for_fields (VNone, VStr "item", None) ;;
      let '(items, varname, repeat) := fields in
      items <- match items with
               | VStr name | VForce name =>
                   vars <- get_vars ;; lift_result (py_getitem (VDict vars) name)
               | _ => ret items
               end ;;
      match items with
      | VList l | VForList l =>
          match varname with
          | VStr x | VForce x =>
              match repeat with
              | Some repeat =>
                  oldvars <- gets loader_vars ;;
                  result <- for_each l (for_iteration oldvars x repeat) [] ;;
                  modify (set_vars oldvars) ;;
                  ret (VForList result)
              | None => raise (marked MarkedYAMLError "missing repeat value" (node_start_mark n))
              end
          | _ => raise (marked MarkedYAMLError "var must be a string" (node_start_mark n))
          end
      | _ => raise (marked MarkedYAMLError "items must be a list" (node_start_mark n))
      end
  end.

Definition if_fields (e : entry) (acc : value * option (M value) * option (M value))
  : M (value * option (M value) * option (M value)) :=
  let '(condition, then_node, else_node) := acc in
  key <- key_construct e (key_tag e) ;;
  condition <- (if eq_str key "condition" then value_construct e else ret condition) ;;
  ret (condition,
       (if eq_str key "then" then Some (value_construct e) else then_node),
       (if eq_str key "else" then Some (value_construct e) else else_node)).

Definition construct_if (n : node) (v : view) : M value :=
  disable <- gets disable_str_expansion ;;
  if disable then ret VNone else
  match unpack_failure v with
  | Some e => raise e
  | None =>
      fields <- for_each (view_entries v) if_fields (VNone, None, None) ;;
      let '(condition, then_node, else_node) := fields in
      match then_node with
      | None => raise (marked MarkedYAMLError "missing then value" (node_start_mark n))
      | Some then_node =>
          if truthy condition then then_node
          else match else_node with
               | Some else_node => else_node
               | None => ret VNone
               end
      end
  end.

Definition print (v : value) : M unit :=
  modify (fun s => set_stdout (stdout s ++ [v]) s).

Definition construct_merge (n : node) (v : view) : M value :=
  disable <- gets disable_str_expansion ;;
  if disable then ret VNone else
  match v with
  | SequenceView _ =>
      mergelist <- construct_sequence n v ;;
      let value := fold_left merge mergelist VNone in
      print value ;;
      ret value
  | _ => raise (marked MarkedYAMLError "!merge expects a list" (node_start_mark n))
  end.

(** [_find_files(directory, "*.yaml")]: the walk is top-down, and a directory
    pruned from [dirs] is not entered. *)
Fixpoint walk (root : string) (t : dirtree) : list string :=
  match t with
  | Dir files dirs =>
      map (path_join root)
          (filter (fun basename => _is_file_valid basename && ends_with ".yaml" basename) files)
      ++ flat_map (fun d : string * dirtree => let (name, sub) := d in
                            if _is_file_valid name then walk (path_join root name) sub else [])
                  dirs
  end.

Definition _find_files (directory : string) : list string :=
  match listdir directory with
  | Some t => walk directory t
  | None => []
  end.

Definition include_dir_files (v : view) : M (list string) :=
  match v with
  | ScalarView dir => path <- _rel_path dir ;; ret (filter_yaml_files (_find_files path))
  | _ => raise (TypeError "expected str, bytes or os.PathLike object")
  end.

Definition load_with_copy (fname : string) : M value :=
  vars <- copy_vars ;; load fname (Some vars) false.

Definition construct_include_dir_list (n : node) (v : view) : M value :=
  files <- include_dir_files v ;;
  docs <- sequence (map load_with_copy files) ;;
  ret (VList docs).

Definition construct_include_dir_merge_list (n : node) (v : view) : M value :=
  files <- include_dir_files v ;;
  merged_list <- for_each files
                   (fun fname merged_list =>
                      loaded_yaml <- load_with_copy fname ;;
                      match loaded_yaml with
                      | VList l | VForList l => ret (merged_list ++ l)
                      | _ => ret merged_list
                      end) [] ;;
  ret (VList merged_list).

Definition construct_include_dir_named (n : node) (v : view) : M value :=
  files <- include_dir_files v ;;
  mapping <- for_each files
               (fun fname mapping =>
                  loaded_yaml <- load_with_copy fname ;;
                  ret (dict_set String.eqb mapping (path_stem fname) loaded_yaml)) [] ;;
  ret (VDict mapping).

Definition construct_include_dir_merge_named (n : node) (v : view) : M value :=
  files <- include_dir_files v ;;
  mapping <- for_each files
               (fun fname mapping =>
                  loaded_yaml <- load_with_copy fname ;;
                  match loaded_yaml with
                  | VDict d => ret (dict_update String.eqb mapping d)
                  | _ => ret mapping
                  end) [] ;;
  ret (VDict mapping).

Definition construct_lambda (n : node) (v : view) : M value :=
  match v with
  | ScalarView _ => code <- construct_yaml_str n ;; ret (VLambda (py_str code))
  | _ => raise (YAMLError MarkedYAMLError (Some "!lambda must tag a string") None None None)
  end.

Definition construct_force (n : node) (v : view) : M value :=
  obj <- lift_result (construct_scalar n) ;; ret (VForce obj).

(** *** Dispatch on the tag: the table filled by [add_constructor] *)

Definition construct_undefined (tag : string) (n : node) : M value :=
  raise (YAMLError ConstructorError None None
           (Some ("could not determine a constructor for the tag '" ++ tag ++ "'")%string)
           (Some (node_start_mark n))).

Definition inherited_scalar_tags : list string :=
  [tag_null; tag_bool; tag_int; tag_float; tag_binary; tag_timestamp].

Definition inherited_container_tags : list string :=
  ["tag:yaml.org,2002:omap"; "tag:yaml.org,2002:pairs"; "tag:yaml.org,2002:set"].

Definition mem_string (x : string) (l : list string) : bool := existsb (String.eqb x) l.

Definition construct_node (tag : string) (n : node) (v : view) : M value :=
  if tag =? tag_str then construct_yaml_str n
  else if tag =? tag_seq then construct_yaml_seq n v
  else if tag =? tag_map then construct_yaml_map n v
  else if tag =? "!env_var" then construct_env_var n v
  else if tag =? "!secret" then construct_secret n v
  else if tag =? "!include" then construct_include n v
  else if tag =? "!literal" then construct_literal n v
  else if tag =? "!for" then construct_for n v
  else if tag =? "!if" then construct_if n v
  else if tag =? "!merge" then construct_merge n v
  else if tag =? "!include_dir_list" then construct_include_dir_list n v
  else if tag =? "!include_dir_merge_list" then construct_include_dir_merge_list n v
  else if tag =? "!include_dir_named" then construct_include_dir_named n v
  else if tag =? "!include_dir_merge_named" then construct_include_dir_merge_named n v
  else if tag =? "!lambda" then construct_lambda n v
  else if tag =? "!force" then construct_force n v
  else if mem_string tag inherited_scalar_tags then construct_inherited tag n
  else if mem_string tag inherited_container_tags then raise (Unmodelled tag)
  else construct_undefined tag n.

(** [construct_object(node)] for a node whose tag reads [tag]. *)
Fixpoint construct_tagged (n : node) (tag : string) {struct n} : M value :=
  construct_node tag n
    match n with
    | ScalarNode _ text _ => ScalarView text
    | SequenceNode _ items _ =>
        SequenceView (map (fun child => construct_tagged child (node_tag child)) items)
    | MappingNode _ items _ =>
        MappingView
          (map (fun kv : node * node =>
                  let (key_node, value_node) := kv in
                  mk_entry (node_tag key_node) (node_start_mark key_node)
                           (construct_tagged key_node)
                           (node_start_mark value_node)
                           (construct_tagged value_node (node_tag value_node)))
               items)
    end.

Definition construct_object (n : node) : M value := construct_tagged n (node_tag n).

(** *** Loading a document with a loader of its own *)

(** [loader.get_single_data()] *)
Definition get_single_data (content : string) : M (option value) :=
  root <- lift_result (compose content) ;;
  match root with
  | Some n => data <- construct_object n ;; ret (Some data)
  | None => ret None
  end.

(** [x or OrderedDict()] *)
Definition or_OrderedDict (data : option value) : value :=
  match data with
  | Some v => if truthy v then v else VDict (OrderedDict [])
  | None => VDict (OrderedDict [])
  end.

(** [_load_yaml_string]: a new loader runs and goes away; the fields of the
    loader that asked for the document are untouched. *)
Definition _load_yaml_string (content name : string) (vars : option nat)
           (disable : bool) : M value :=
  vars <- match vars with Some a => ret a | None => alloc [] end ;;
  fun caller =>
    let (r, s) := get_single_data content (set_loader name vars disable caller) in
    let s := set_loader (loader_name caller) (loader_vars caller)
                        (disable_str_expansion caller) s in
    match r with
    | Ok data => (Ok (or_OrderedDict data), s)
    | Raise exc => (Raise (if is_YAMLError exc then EsphomeError exc else exc), s)
    end.

Definition load_file (fname : string) : M string :=
  modify (fun s => set_reads (reads s ++ [fname]) s) ;;
  lift_result (read_config_file fname).

Definition _load_yaml_internal_body (fname : string) (vars : option nat)
           (disable : bool) : M value :=
  content <- load_file fname ;;
  _load_yaml_string content fname vars disable.

End Construct.

(** [_load_yaml_internal]; [depth] bounds the nesting of file loads. *)
Fixpoint _load_yaml_internal {C : Collaborators} (depth : nat)
         (fname : string) (vars : option nat) (disable : bool) : M value :=
  match depth with
  | O => raise IncludeDepthExceeded
  | S depth' => _load_yaml_internal_body (_load_yaml_internal depth') fname vars disable
  end.

Section Entry.
Context {C : Collaborators}.






Definition load_yaml (depth : nat) (fname : string) (clear_secrets : bool)
           (vars : option nat) : M value :=
  vars <- match vars with Some a => ret a | None => alloc [] end ;;
  (if clear_secrets
   then modify (set_SECRET_VALUES []) ;; modify (set_SECRET_CACHE [])
   else ret tt) ;;
  config <- _load_yaml_internal depth fname (Some vars) false ;;
  present <- lift_result (py_contains config CONF_SUBSTITUTIONS) ;;
  if present
  then match config with
       | VDict d => ret (VDict (dict_del String.eqb d CONF_SUBSTITUTIONS))
       | _ => raise (TypeError "object does not support item deletion")
       end
  else ret config.

End Entry.

(** ** The dumper: [class ESPHomeDumper] *)

Fixpoint lower (s : string) : string :=
  match s with
  | EmptyString => EmptyString
  | String c r =>
      let n := nat_of_ascii c in
      String (if (65 <=? n)%nat && (n <=? 90)%nat then ascii_of_nat (n + 32) else c) (lower r)
  end.

Fixpoint contains_char (c : ascii) (s : string) : bool :=
  match s with
  | EmptyString => false
  | String c' r => Ascii.eqb c' c || contains_char c r
  end.

(** [value.replace("e", ".0e", 1)] *)
Fixpoint replace_first_e (s : string) : string :=
  match s with
  | EmptyString => EmptyString
  | String c r =>
      if Ascii.eqb c "e" then (".0e" ++ r)%string else String c (replace_first_e r)
  end.

Section Dumper.
Context {C : Collaborators}.

(** [_SECRET_VALUES] when the dump runs. *)
Variable registry : list (string * string).

(** [self.default_flow_style] *)
Variable default_flow_style : option bool.

Definition is_secret (value : value) : option string :=
  dict_get String.eqb registry (py_str value).

(** The truth value of what [is_secret] returns. *)
Definition redacted (value : value) : bool :=
  match is_secret value with
  | Some name => negb (name =? "")
  | None => false
  end.

Definition represent_scalar (tag value : string) (style : option string) : rnode :=
  RScalar tag value style.

Definition represent_secret (value : value) : result rnode :=
  match dict_get String.eqb registry (py_str value) with
  | Some name => Ok (represent_scalar "!secret" name None)
  | None => Raise (KeyError (py_str value))
  end.

Definition represent_stringify (value : value) : result rnode :=
  if redacted value then represent_secret value
  else Ok (represent_scalar tag_str (py_str value) None).

Definition represent_bool (value : bool) : result rnode :=
  Ok (represent_scalar tag_bool (if value then "true" else "false") None).

Definition represent_int (value : Z) : result rnode :=
  if redacted (VInt value) then represent_secret (VInt value)
  else Ok (represent_scalar tag_int (py_str (VInt value)) None).

Definition float_text (value : float) : string :=
  if PrimFloat.is_nan value then ".nan"
  else if PrimFloat.is_infinity value
       then (if PrimFloat.ltb 0%float value then ".inf" else "-.inf")
       else
         let value := lower (float_repr value) in
         if negb (contains_char "." value) && contains_char "e" value
         then replace_first_e value
         else value.

Definition represent_float (value : float) : result rnode :=
  if redacted (VFloat value) then represent_secret (VFloat value)
  else Ok (represent_scalar tag_float (float_text value) None).

Definition represent_lambda (code : string) : result rnode :=
  if redacted (VStr code) then represent_secret (VStr code)
  else Ok (represent_scalar "!lambda" code (Some "|")).

Definition represent_id (id : string) : result rnode :=
  if redacted (VStr id) then represent_secret (VStr id)
  else represent_stringify (VStr id).

(** An unstyled scalar keeps [best_style]. *)
Definition plain_scalar (r : rnode) : bool :=
  match r with
  | RScalar _ _ None => true
  | RScalar _ _ (Some style) => (style =? "")
  | _ => false
  end.

Definition chosen_flow_style (flow_style : option bool) (best_style : bool) : option bool :=
  match flow_style with
  | Some f => Some f
  | None => match default_flow_style with
            | Some f => Some f
            | None => Some best_style
            end
  end.

Fixpoint sequence_result {A : Type} (rs : list (result A)) : result (list A) :=
  match rs with
  | [] => Ok []
  | Ok a :: r => match sequence_result r with
                 | Ok l => Ok (a :: l)
                 | Raise e => Raise e
                 end
  | Raise e :: _ => Raise e
  end.

Definition represent_sequence (tag : string) (items : list (result rnode)) : result rnode :=
  match sequence_result items with
  | Ok value =>
      Ok (RSequence tag value (chosen_flow_style None (forallb plain_scalar value)))
  | Raise e => Raise e
  end.

Definition pair_result (kv : result rnode * result rnode) : result (rnode * rnode) :=
  match fst kv, snd kv with
  | Ok k, Ok v => Ok (k, v)
  | Raise e, _ => Raise e
  | _, Raise e => Raise e
  end.

Definition represent_mapping (tag : string) (items : list (result rnode * result rnode))
  : result rnode :=
  match sequence_result (map pair_result items) with
  | Ok value =>
      Ok (RMapping tag value
            (chosen_flow_style None
               (forallb (fun kv => plain_scalar (fst kv) && plain_scalar (snd kv)) value)))
  | Raise e => Raise e
  end.

(** [represent_data]: the table filled by [add_multi_representer], and the
    inherited representers of [None] and of binary data. *)
Fixpoint represent_data (data : value) : result rnode :=
  match data with
  | VDict d =>
      represent_mapping tag_map
        (map (fun kv : string * value =>
                let (k, v) := kv in (represent_stringify (VStr k), represent_data v)) d)
  | VList l | VForList l => represent_sequence tag_seq (map represent_data l)
  | VBool b => represent_bool b
  | VStr _ | VForce _ | VForeign _ => represent_stringify data
  | VInt z => represent_int z
  | VFloat f => represent_float f
  | VLambda code => represent_lambda code
  | VID id => represent_id id
  | VNone => Ok (represent_scalar tag_null "null" None)
  | VBytes b => Ok (represent_scalar tag_binary (base64_encode b) (Some "|"))
  end.

End Dumper.

(** [dump(dict_)] reads the registry of the state it runs in. *)
Definition dump {C : Collaborators} (dict_ : value) : M string :=
  registry <- gets SECRET_VALUES ;;
  r <- lift_result (represent_data registry (Some false) dict_) ;;
  ret (emit r).

(** ** A small implementation of the collaborators

    Enough of a template engine, of PyYAML's scalars and of a file system to
    run the loader on concrete documents.  A file holds a name of a parsed
    document; [docs] maps that name to the document's root node. *)

Module Toy.

Definition float_text (f : float) : string :=
  if PrimFloat.is_nan f then "nan"
  else if PrimFloat.eqb f infinity then "inf"
  else if PrimFloat.eqb f neg_infinity then "-inf"
  else if PrimFloat.eqb f 1e17%float then "1e+17"
  else "0.0".

(** [str(v)], with a fixed text for containers. *)
Definition render (v : value) : string :=
  match v with
  | VNone => "None"
  | VBool true => "True"
  | VBool false => "False"
  | VInt z => NilZero.string_of_int (Z.to_int z)
  | VFloat f => float_text f
  | VStr s | VForce s => s
  | VLambda code => code
  | VID id => id
  | VForeign o => foreign_str o
  | VBytes _ | VList _ | VForList _ | VDict _ => "<container>"
  end.

(** The name in front of a closing [ }}] that ends the string. *)
Fixpoint before_closing (s : string) : option string :=
  if s =? " }}" then Some EmptyString
  else match s with
       | EmptyString => None
       | String c r => option_map (String c) (before_closing r)
       end.

(** The variable a template of the shape [{{ name }}] refers to. *)
Definition reference (st : string) : option string :=
  match st with
  | String "{" (String "{" (String " " r)) => before_closing r
  | _ => None
  end.

(** The template that refers to the variable [name]. *)
Definition template (name : string) : string := ("{{ " ++ name ++ " }}")%string.

Definition expand (st : string) (vars : dict) : jinja_result :=
  match reference st with
  | Some name =>
      match dict_get String.eqb vars name with
      | Some v => Expanded (render v)
      | None => UndefinedError ("'" ++ name ++ "' is undefined")%string
      end
  | None => Expanded st
  end.

Fixpoint digits (s : string) (acc : Z) : option Z :=
  match s with
  | EmptyString => Some acc
  | String c r =>
      let n := nat_of_ascii c in
      if (48 <=? n)%nat && (n <=? 57)%nat
      then digits r (10 * acc + Z.of_nat (n - 48))%Z
      else None
  end.

Definition integer (s : string) : option Z :=
  match s with
  | EmptyString => None
  | String "-" EmptyString => None
  | String "-" r => option_map Z.opp (digits r 0%Z)
  | _ => digits s 0%Z
  end.

Definition scalar (tag text : string) : result value :=
  if tag =? tag_null then Ok VNone
  else if tag =? tag_bool then
    (if text =? "true" then Ok (VBool true)
     else if text =? "false" then Ok (VBool false)
     else Raise (KeyError text))
  else if tag =? tag_int then
    match integer text with
    | Some z => Ok (VInt z)
    | None => Raise (ValueError "invalid literal for int()")
    end
  else if tag =? tag_float then
    (if text =? ".nan" then Ok (VFloat nan)
     else if text =? ".inf" then Ok (VFloat infinity)
     else if text =? "-.inf" then Ok (VFloat neg_infinity)
     else if text =? "0.0" then Ok (VFloat 0%float)
     else if text =? "1.0e+17" then Ok (VFloat 1e17%float)
     else Raise (ValueError "could not convert string to float"))
  else Raise (Unmodelled tag).

Fixpoint before_last_slash (s : string) : option string :=
  match s with
  | EmptyString => None
  | String c r =>
      match before_last_slash r with
      | Some d => Some (String c d)
      | None => if Ascii.eqb c "/" then Some EmptyString else None
      end
  end.

Definition dirname (s : string) : string :=
  match before_last_slash s with Some d => d | None => EmptyString end.

Definition join_path (a b : string) : string :=
  match a with EmptyString => b | _ => (a ++ "/" ++ b)%string end.

Definition collaborators (fs : list (string * string)) (docs : list (string * node))
           (env : list (string * string)) : Collaborators :=
  {| expand_str := expand;
     validate_vars := fun v => match v with
                               | VDict d => Ok d
                               | _ => Raise (Invalid "expected a dictionary" [])
                               end;
     compose := fun content =>
                  match content with
                  | EmptyString => Ok None
                  | _ => match dict_get String.eqb docs content with
                         | Some n => Ok (Some n)
                         | None => Raise (YAMLError ParserError None None
                                            (Some "could not parse") None)
                         end
                  end;
     safe_construct_scalar := scalar;
     float_repr := float_text;
     container_repr := fun _ => "<container>";
     type_repr := fun _ => "<class>";
     nat_repr := fun n => NilZero.string_of_int (Z.to_int (Z.of_nat n));
     read_config_file := fun path =>
                           match dict_get String.eqb fs path with
                           | Some content => Ok content
                           | None => Raise (OSError path)
                           end;
     environ := dict_get String.eqb env;
     path_join := join_path;
     path_dirname := dirname;
     path_stem := fun p => p;
     listdir := fun _ => None;
     filter_yaml_files := fun l => l;
     base64_encode := fun b => b;
     emit := fun _ => EmptyString;
     INCLUDE_SCHEMA := fun d => Ok d;
     git_clone_or_update := fun _ _ _ _ _ => Raise (OSError "git") |}.

Definition mark0 : Mark := mkMark "doc" 0 0.

Definition str (text : string) : node := ScalarNode tag_str text mark0.
Definition int (text : string) : node := ScalarNode tag_int text mark0.
Definition seq (items : list node) : node := SequenceNode tag_seq items mark0.
Definition map_ (items : list (node * node)) : node := MappingNode tag_map items mark0.

(** A state with one empty variable dictionary, which the loader uses. *)
Definition initial : state := mkState "main.yaml" 0 false [[]] [] [] [] [].

End Toy.

(** ** Definitions that follow the specification's words

    They are compared below with the definitions taken from the code. *)



(** The state in which the loader created by [_load_yaml_string] starts. *)
Definition entered (name : string) (vars : option nat) (disable : bool) (s : state) : state :=
  match vars with
  | Some a => set_loader name a disable s
  | None => set_loader name (length (heap s)) disable (set_heap (heap s ++ [[]]) s)
  end.

(** A root that Python takes for false: no document at all, or a false value. *)
Definition falsy (root : option value) : Prop :=
  match root with
  | Some v => truthy v = false
  | None => True
  end.

(** The roots the specification lists as falsy. *)
Definition listed_falsy_roots : list value :=
  [VNone; VDict []; VList []; VBool false; VInt 0; VStr ""].

(** *** The text Python's [repr] gives a finite float

    A sign, digits, then a fraction, an exponent, or both:
    [-?d+(.d+)?(e[+-]?d+)?], never digits alone. *)








(** *** Sequences *)

(** A child that [flatten_for] does not keep as it is: the output of [!for],
    or a null. *)
Definition is_marker (v : value) : bool :=
  match v with VForList _ | VNone => true | _ => false end.

(** Splicing, told as a relation: a [ForList] gives way to its own spliced
    items, a null to nothing, anything else stays. *)
Inductive Spliced : list value -> list value -> Prop :=
| Spliced_nil : Spliced [] []
| Spliced_for (l rest out1 out2 : list value) :
    Spliced l out1 -> Spliced rest out2 -> Spliced (VForList l :: rest) (out1 ++ out2)
| Spliced_none (rest out : list value) :
    Spliced rest out -> Spliced (VNone :: rest) out
| Spliced_other (v : value) (rest out : list value) :
    is_marker v = false -> Spliced rest out -> Spliced (v :: rest) (v :: out).

(** Flattening by exactly one level, as the specification words it: the items
    of a [ForList] child take its place, nulls go, and nothing else moves. *)
Definition spec_flatten_one_level (items : list value) : list value :=
  flat_map (fun item =>
              match item with
              | VForList l => filter (fun x => negb (is_None x)) l
              | VNone => []
              | _ => [item]
              end) items.

(** Induction on values that reaches the items of lists and dictionaries. *)
Section ValueInduction.
Variable P : value -> Prop.
Hypothesis HNone : P VNone.
Hypothesis HBool : forall b, P (VBool b).
Hypothesis HInt : forall z, P (VInt z).
Hypothesis HFloat : forall f, P (VFloat f).
Hypothesis HStr : forall s, P (VStr s).
Hypothesis HForce : forall s, P (VForce s).
Hypothesis HBytes : forall s, P (VBytes s).
Hypothesis HList : forall l, Forall P l -> P (VList l).
Hypothesis HForList : forall l, Forall P l -> P (VForList l).
Hypothesis HDict : forall d, Forall (fun kv => P (snd kv)) d -> P (VDict d).
Hypothesis HLambda : forall c, P (VLambda c).
Hypothesis HID : forall i, P (VID i).
Hypothesis HForeign : forall o, P (VForeign o).

Fixpoint value_nested_ind (v : value) : P v :=
  match v with
  | VNone => HNone
  | VBool b => HBool b
  | VInt z => HInt z
  | VFloat f => HFloat f
  | VStr s => HStr s
  | VForce s => HForce s
  | VBytes s => HBytes s
  | VList l =>
      HList ((fix items (l : list value) : Forall P l :=
                match l with
                | [] => Forall_nil P
                | x :: r => Forall_cons x (value_nested_ind x) (items r)
                end) l)
  | VForList l =>
      HForList ((fix items (l : list value) : Forall P l :=
                   match l with
                   | [] => Forall_nil P
                   | x :: r => Forall_cons x (value_nested_ind x) (items r)
                   end) l)
  | VDict d =>
      HDict ((fix items (d : list (string * value)) : Forall (fun kv => P (snd kv)) d :=
                match d with
                | [] => Forall_nil _
                | kv :: r => Forall_cons kv (value_nested_ind (snd kv)) (items r)
                end) d)
  | VLambda c => HLambda c
  | VID i => HID i
  | VForeign o => HForeign o
  end.
End ValueInduction.

(** *** [!merge] on two sequences *)

Section MergeSpec.
Context {C : Collaborators}.

(** The [id]s, rendered by [str], of the mappings of a sequence that have one. *)
Definition ids (l : list value) : list string :=
  flat_map (fun x => match item_id x with Some i => [i] | None => [] end) l.

(** The identity keys of a sequence: the [id] of an item that is a mapping
    with an [id] field, the positional rank of any other item among the items
    without one. *)
Fixpoint keyed (l : list value) (rank : nat) : list (index_key * value) :=
  match l with
  | [] => []
  | x :: r =>
      match item_id x with
      | Some i => (IdKey i, x) :: keyed r rank
      | None => (PosKey rank, x) :: keyed r (S rank)
      end
  end.

(** The first item of [new] whose [id] is [i]. *)
Definition find_id (new : list value) (i : string) : option value :=
  find (fun n => match item_id n with Some j => (j =? i) | None => false end) new.

(** What becomes of an item of the old sequence, in the code. *)
Definition reconciled (new : list value) (o : value) : value :=
  match item_id o with
  | Some i => match find_id new i with
              | Some n => merge o n
              | None => o
              end
  | None => o
  end.

(** The items of the new sequence that the code appends. *)
Definition unmatched (old : list value) (n : value) : bool :=
  match item_id n with
  | Some i => negb (mem_string i (ids old))
  | None => true
  end.

(** Reconciliation as the specification words it: both sequences are keyed,
    an old item whose key is a key of the new sequence is merged with that
    item, and the new items whose key is no key of the old sequence follow. *)
Definition spec_merge_lists (old new : list value) : list value :=
  let old_keys := keyed old 0 in
  let new_keys := keyed new 0 in
  map (fun ko : index_key * value =>
         match dict_get index_key_eqb new_keys (fst ko) with
         | Some n => merge (snd ko) n
         | None => snd ko
         end) old_keys
  ++ dict_values (filter (fun kn : index_key * value =>
                            negb (dict_mem index_key_eqb old_keys (fst kn))) new_keys).

End MergeSpec.

(** *** [load_vars] *)


(** *** Positions in a tree and in its representation *)





(** *** What the construction pass leaves alone *)

(** From [s] to [s']: the dictionaries that existed keep their contents, the
    document cache and the loader's name are the same, the file reader has
    only been asked for more. *)
Definition stable (s s' : state) : Prop :=
  length (heap s) <= length (heap s')
  /\ (forall a, a < length (heap s) -> deref s' a = deref s a)
  /\ SECRET_CACHE s' = SECRET_CACHE s
  /\ loader_name s' = loader_name s
  /\ exists more, reads s' = reads s ++ more.

Definition preserving {A : Type} (m : M A) : Prop :=
  forall s, stable s (snd (m s)).

(** On a normal return, the loader's environment and its expansion flag are
    what they were. *)
Definition restoring {A : Type} (m : M A) : Prop :=
  forall s a s', m s = (Ok a, s') ->
                 loader_vars s' = loader_vars s
                 /\ disable_str_expansion s' = disable_str_expansion s.

Definition well_behaved {A : Type} (m : M A) : Prop := preserving m /\ restoring m.

Definition well_behaved_entry (e : entry) : Prop :=
  (forall tag, well_behaved (key_construct e tag)) /\ well_behaved (value_construct e).

Definition well_behaved_view (v : view) : Prop :=
  match v with
  | ScalarView _ => True
  | SequenceView children => Forall well_behaved children
  | MappingView entries => Forall well_behaved_entry entries
  end.

(** The state in which an iteration of [!for] constructs [repeat]: the
    loader's environment is a new dictionary, the copy of the one at [oldvars]
    in which [varname] is bound to the item. *)
Definition loop_state (oldvars : nat) (varname : string) (i : value) (s : state) : state :=
  set_heap (heap s ++ [dict_set String.eqb (deref s oldvars) varname i])
           (set_vars (length (heap s)) s).

(** Induction on nodes that reaches the children. *)
Section NodeInduction.
Variable P : node -> Prop.
Hypothesis HScalar : forall tag text mark, P (ScalarNode tag text mark).
Hypothesis HSequence : forall tag items mark, Forall P items -> P (SequenceNode tag items mark).
Hypothesis HMapping : forall tag items mark,
    Forall (fun kv => P (fst kv) /\ P (snd kv)) items -> P (MappingNode tag items mark).

Fixpoint node_nested_ind (n : node) : P n :=
  match n with
  | ScalarNode tag text mark => HScalar tag text mark
  | SequenceNode tag items mark =>
      HSequence tag mark
        ((fix children (l : list node) : Forall P l :=
            match l with
            | [] => Forall_nil P
            | x :: r => Forall_cons x (node_nested_ind x) (children r)
            end) items)
  | MappingNode tag items mark =>
      HMapping tag mark
        ((fix children (l : list (node * node))
           : Forall (fun kv => P (fst kv) /\ P (snd kv)) l :=
            match l with
            | [] => Forall_nil _
            | kv :: r =>
                Forall_cons kv (conj (node_nested_ind (fst kv)) (node_nested_ind (snd kv)))
                            (children r)
            end) items)
  end.
End NodeInduction.

(** *** Notions used in the proofs *)



(** The entries of an index that no [id] of [consumed] has removed. *)
Definition remaining (consumed : list string) (index : list (index_key * value))
  : list (index_key * value) :=
  filter (fun kv => match fst kv with
                    | IdKey i => negb (mem_string i consumed)
                    | PosKey _ => true
                    end) index.


(** A closure that the scan of the fields of [!for] and [!if] may keep. *)
Definition well_behaved_option (m : option (M value)) : Prop :=
  match m with Some c => well_behaved c | None => True end.


(** ** Documents used as examples *)

Module Examples.
Import Toy.

Definition plain : Collaborators := collaborators [] [] [].




(** The entries of a mapping node, as [construct_tagged] hands them over. *)
Definition entries_of {C : Collaborators} (load : string -> option nat -> bool -> M value)
           (items : list (node * node)) : list entry :=
  map (fun kv : node * node =>
         let (key_node, value_node) := kv in
         mk_entry (node_tag key_node) (node_start_mark key_node)
                  (construct_tagged load key_node)
                  (node_start_mark value_node)
                  (construct_tagged load value_node (node_tag value_node)))
      items.
End Examples.

Module LoadExamples.
Import Toy.

(** Documents whose root is, in turn, null, an empty mapping, an empty
    sequence, false, zero and the empty string. *)
Definition docs : list (string * node) :=
  [("null", ScalarNode tag_null "null" mark0);
   ("{}", map_ []);
   ("[]", seq []);
   ("false", ScalarNode tag_bool "false" mark0);
   ("0", int "0");
   ("''", str "")].

Definition with_docs : Collaborators := collaborators [] docs [].
End LoadExamples.

Module ForExamples.
Import Toy.

Definition for_ (items : list (node * node)) : node := MappingNode "!for" items mark0.

(** [[1, !for {items: [2, 3], repeat: '{{ item }}'}, 4]] *)
Definition flattening : list node :=
  [int "1";
   for_ [(str "items", seq [int "2"; int "3"]); (str "repeat", str "{{ item }}")];
   int "4"].

(** [[!for {items: [1, 2], repeat: !for {items: [a, b], repeat: x}}]] *)
Definition nested : list node :=
  [for_ [(str "items", seq [int "1"; int "2"]);
         (str "repeat", for_ [(str "items", seq [str "a"; str "b"]);
                              (str "repeat", str "x")])]].

(** The children of a sequence node, as [construct_tagged] hands them over. *)
Definition children_of {C : Collaborators} (load : string -> option nat -> bool -> M value)
           (items : list node) : list (M value) :=
  map (fun child => construct_tagged load child (node_tag child)) items.
End ForExamples.

Module MergeExamples.
Definition item (id : string) (v : Z) : value := VDict [("id", VStr id); ("v", VInt v)].

(** [[{id: a, v: 1}, {id: b, v: 2}]] and [[{id: b, v: 9}, {id: c, v: 3}]] *)
Definition first : value := VList [item "a" 1; item "b" 2].
Definition second : value := VList [item "b" 9; item "c" 3].
End MergeExamples.

Module VarsExamples.
Import Toy.

(** [main.yaml] declares [a: one] and [b: '{{ a }}']; the command line
    overrides [a] with the document [7]. *)
Definition docs : list (string * node) :=
  [("main", map_ [(str "substitutions",
                   map_ [(str "a", str "one"); (str "b", str (template "a"))])]);
   ("7", int "7")].

Definition files : list (string * string) := [("main.yaml", "main")].

Definition with_files : Collaborators := collaborators files docs [].
End VarsExamples.

Module SecretExamples.
Import Toy.

Definition secret (name : string) : node := ScalarNode "!secret" name mark0.

(** [secrets.yaml] gives the same password under two names, a token under
    the empty name, and NaN under the name [limit]; [main.yaml] uses the two
    names, [leak.yaml] the empty one, [float.yaml] the last. *)
Definition docs : list (string * node) :=
  [("secrets", map_ [(str "first", str "hunter2"); (str "second", str "hunter2");
                     (str "", str "token");
                     (str "limit", ScalarNode tag_float ".nan" mark0)]);
   ("main", map_ [(str "a", secret "first"); (str "b", secret "second")]);
   ("leak", map_ [(str "t", secret "")]);
   ("float", map_ [(str "v", secret "limit")])].

Definition files : list (string * string) :=
  [("secrets.yaml", "secrets"); ("main.yaml", "main"); ("leak.yaml", "leak");
   ("float.yaml", "float")].

Definition with_files : Collaborators := collaborators files docs [].
End SecretExamples.

Module ScopeExamples.
Import Toy.


(** [!for {items: [1, 2], var: i, repeat: '{{ i }}'}] *)
Definition counting_for : node :=
  ForExamples.for_ [(str "items", seq [int "1"; int "2"]); (str "var", str "i");
                    (str "repeat", str (template "i"))].
End ScopeExamples.


(** ** Further notions, for the properties of the other functions *)



(** *** Documents without directives *)

Definition key_text (k : node) : string :=
  match k with
  | ScalarNode _ text _ => text
  | _ => EmptyString
  end.

(** A key that the first loop of [construct_yaml_map] constructs as a string:
    a scalar tagged [str], or tagged [value] and retagged [str]. *)
Definition scalar_key (k : node) : bool :=
  match k with
  | ScalarNode tag _ _ => (tag =? tag_str) || (tag =? tag_value)
  | _ => false
  end.

Fixpoint distinct (l : list string) : bool :=
  match l with
  | [] => true
  | x :: r => negb (mem_string x r) && distinct r
  end.

(** Strings, sequences and mappings with string keys, all with their default
    tags, and no key written twice in a mapping. *)
Fixpoint plain (n : node) : bool :=
  match n with
  | ScalarNode tag _ _ => (tag =? tag_str)
  | SequenceNode tag items _ => (tag =? tag_seq) && forallb plain items
  | MappingNode tag items _ =>
      (tag =? tag_map)
      && forallb (fun kv : node * node =>
                    let (key_node, value_node) := kv in
                    match key_node with
                    | ScalarNode key_tag _ _ => (key_tag =? tag_str)
                    | _ => false
                    end && plain value_node) items
      && distinct (map (fun kv : node * node => key_text (fst kv)) items)
  end.

(** The document as it is written: every string is the text of its node. *)
Fixpoint verbatim (n : node) : value :=
  match n with
  | ScalarNode _ text _ => VStr text
  | SequenceNode _ items _ => VList (map verbatim items)
  | MappingNode _ items _ =>
      VDict (map (fun kv : node * node =>
                    let (key_node, value_node) := kv in
                    (key_text key_node, verbatim value_node)) items)
  end.

Definition verbatim_pair (kv : node * node) : string * value :=
  let (key_node, value_node) := kv in (key_text key_node, verbatim value_node).

(** What constructing a node gives in a loader that does not expand. *)
Definition constructs_verbatim {C : Collaborators}
           (load : string -> option nat -> bool -> M value) (n : node) : Prop :=
  forall st, disable_str_expansion st = true ->
             construct_tagged load n (node_tag n) st = (Ok (verbatim n), st).

Definition with_tag (tag : string) (n : node) : node :=
  match n with
  | ScalarNode _ text mark => ScalarNode tag text mark
  | SequenceNode _ items mark => SequenceNode tag items mark
  | MappingNode _ items mark => MappingNode tag items mark
  end.

(** *** The files of a directory *)

(** [found root t path]: [path] names a file of the tree [t] rooted at [root]
    that ends in [.yaml], and neither the file nor a directory on the way
    down to it has a name that starts with a dot. *)
Inductive found {C : Collaborators} : string -> dirtree -> string -> Prop :=
| found_here root files dirs basename :
    In basename files ->
    String.prefix "." basename = false ->
    ends_with ".yaml" basename = true ->
    found root (Dir files dirs) (path_join root basename)
| found_below root files dirs name sub path :
    In (name, sub) dirs ->
    String.prefix "." name = false ->
    found (path_join root name) sub path ->
    found root (Dir files dirs) path.

(** Induction on directory trees that reaches the sub-directories. *)
Section DirtreeInduction.
Variable P : dirtree -> Prop.
Hypothesis HDir : forall files dirs, Forall (fun d => P (snd d)) dirs -> P (Dir files dirs).

Fixpoint dirtree_nested_ind (t : dirtree) : P t :=
  match t with
  | Dir files dirs =>
      HDir files
        ((fix subtrees (l : list (string * dirtree)) : Forall (fun d => P (snd d)) l :=
            match l with
            | [] => Forall_nil _
            | d :: r => Forall_cons d (dirtree_nested_ind (snd d)) (subtrees r)
            end) dirs)
  end.
End DirtreeInduction.

(** *** The representation of a dump *)



(** What [merge] makes of two mappings, entry by entry. *)
Definition merged_entry (rec : value -> value -> value) (nd : dict)
           (kv : string * value) : string * value :=
  (fst kv, match dict_get String.eqb nd (fst kv) with
           | Some v => rec (snd kv) v
           | None => snd kv
           end).

Definition merged_mappings (rec : value -> value -> value) (od nd : dict) : dict :=
  map (merged_entry rec nd) od
  ++ filter (fun kv : string * value => negb (dict_mem String.eqb od (fst kv))) nd.

(** ** Further example documents *)

Module EntryExamples.
Import Toy.

(** [main.yaml] declares a substitution and names the node. *)
Definition docs : list (string * node) :=
  [("main", map_ [(str "substitutions", map_ [(str "a", str "one")]);
                  (str "name", str "node")])].

Definition files : list (string * string) := [("main.yaml", "main")].

Definition with_files : Collaborators := collaborators files docs [].
End EntryExamples.

Module DirExamples.
Import Toy.


Definition docs : list (string * node) :=
  [("a", seq [str "x"]);
   ("b", map_ [(str "k", str "v")]);
   ("c", seq [str "y"; str "z"]);
   ("more a", seq [str "w"])].

Definition files : list (string * string) :=
  [("parts/a.yaml", "a"); ("parts/b.yaml", "b"); ("parts/c.yaml", "c");
   ("parts/more/a.yaml", "more a")].

(** [os.path.basename] and [os.path.splitext(...)[0]] *)
Fixpoint basename (path : string) : string :=
  match path with
  | EmptyString => EmptyString
  | String c r =>
      if contains_char "/" r then basename r
      else if Ascii.eqb c "/" then r else path
  end.



End DirExamples.

Module IncludeExamples.
Import Toy.

(** [!include {file: child.yaml, vars: {a: two, b: three}}] in a document
    whose environment binds [a] to [one] and [c] to [four]. *)
Definition items : list (node * node) :=
  [(str "file", str "child.yaml");
   (str "vars", map_ [(str "a", str "two"); (str "b", str "three")])].

Definition include : node := MappingNode "!include" items mark0.

Definition parent : dict := [("a", VStr "one"); ("c", VStr "four")].

Definition including : state := mkState "main.yaml" 0 false [parent] [] [] [] [].
End IncludeExamples.

(** *** What a document without directives is dumped as *)

Fixpoint rnode_of (n : node) : rnode :=
  match n with
  | ScalarNode _ text _ => RScalar tag_str text None
  | SequenceNode _ items _ => RSequence tag_seq (map rnode_of items) (Some false)
  | MappingNode _ items _ =>
      RMapping tag_map
        (map (fun kv : node * node =>
                let (key_node, value_node) := kv in
                (RScalar tag_str (key_text key_node) None, rnode_of value_node)) items)
        (Some false)
  end.

(** The texts of the scalars of a document, keys included. *)
Fixpoint texts (n : node) : list string :=
  match n with
  | ScalarNode _ text _ => [text]
  | SequenceNode _ items _ => flat_map texts items
  | MappingNode _ items _ =>
      flat_map (fun kv : node * node =>
                  let (key_node, value_node) := kv in
                  key_text key_node :: texts value_node) items
  end.


Unset Implicit Arguments.


(** * Properties *)

(** ** Dictionaries *)

Section DictFacts.
Context {K V : Type}.
Variable eqb : K -> K -> bool.
Hypothesis eqb_eq : forall a b, eqb a b = true <-> a = b.

Lemma eqb_refl' : forall a, eqb a a = true.
Proof. intro a. now apply eqb_eq. Qed.

Lemma eqb_neq : forall a b, eqb a b = false <-> a <> b.
Proof.
  intros a b. split.
  - intros E H. apply eqb_eq in H. congruence.
  - intro H. destruct (eqb a b) eqn:E; [apply eqb_eq in E; contradiction | reflexivity].
Qed.

Lemma dict_get_None (d : list (K * V)) k :
  dict_get eqb d k = None <-> ~ In k (dict_keys d).
Proof.
  induction d as [|[k' v] r IH]; simpl.
  - tauto.
  - destruct (eqb k' k) eqn:E.
    + apply eqb_eq in E. split; [discriminate | intro H; exfalso; apply H; now left].
    + apply eqb_neq in E. rewrite IH. tauto.
Qed.

Lemma dict_get_Some_In (d : list (K * V)) k v :
  dict_get eqb d k = Some v -> In (k, v) d.
Proof.
  induction d as [|[k' v'] r IH]; simpl; [discriminate|].
  destruct (eqb k' k) eqn:E.
  - apply eqb_eq in E. intro H. injection H as ->. subst. now left.
  - intro H. right. auto.
Qed.

Lemma dict_mem_In (d : list (K * V)) k :
  dict_mem eqb d k = true <-> In k (dict_keys d).
Proof.
  unfold dict_mem. destruct (dict_get eqb d k) eqn:E.
  - split; [intros _ | reflexivity].
    apply dict_get_Some_In in E. apply (in_map fst) in E. exact E.
  - apply dict_get_None in E. split; [discriminate | contradiction].
Qed.

Lemma dict_set_fresh (d : list (K * V)) k v :
  dict_get eqb d k = None -> dict_set eqb d k v = d ++ [(k, v)].
Proof.
  induction d as [|[k' v'] r IH]; simpl; [reflexivity|].
  destruct (eqb k' k); [discriminate|]. intro H. now rewrite IH.
Qed.

Lemma dict_get_app (d1 d2 : list (K * V)) k :
  dict_get eqb (d1 ++ d2) k =
  match dict_get eqb d1 k with Some v => Some v | None => dict_get eqb d2 k end.
Proof.
  induction d1 as [|[k' v'] r IH]; simpl; [reflexivity|].
  now destruct (eqb k' k).
Qed.

Lemma dict_get_set (d : list (K * V)) k v k' :
  dict_get eqb (dict_set eqb d k v) k' =
  if eqb k k' then Some v else dict_get eqb d k'.
Proof.
  induction d as [|[k0 v0] r IH]; simpl.
  - reflexivity.
  - destruct (eqb k0 k) eqn:E0; simpl.
    + apply eqb_eq in E0. subst k0. now destruct (eqb k k').
    + destruct (eqb k0 k') eqn:E1.
      * apply eqb_eq in E1. subst k0.
        destruct (eqb k k') eqn:E2; [|reflexivity].
        apply eqb_eq in E2. subst. rewrite eqb_refl' in E0. discriminate.
      * exact IH.
Qed.


(** Inserting pairs with fresh, pairwise distinct keys appends them. *)
Lemma dict_update_fresh (other d : list (K * V)) :
  NoDup (dict_keys other) ->
  (forall k, In k (dict_keys other) -> ~ In k (dict_keys d)) ->
  dict_update eqb d other = d ++ other.
Proof.
  unfold dict_update. revert d.
  induction other as [|[k v] r IH]; intros d ND F; simpl.
  - now rewrite app_nil_r.
  - inversion ND as [|? ? Hk ND']; subst.
    rewrite dict_set_fresh by (apply dict_get_None, F; now left).
    rewrite IH; [now rewrite <- app_assoc | exact ND' |].
    intros k' Hin. unfold dict_keys. rewrite map_app, in_app_iff. simpl.
    intros [H | [H | []]].
    + apply (F k'); [now right | exact H].
    + subst k'. contradiction.
Qed.
End DictFacts.

Lemma OrderedDict_distinct (V : Type) (items : list (string * V)) :
  NoDup (dict_keys items) -> OrderedDict items = items.
Proof.
  intro ND. unfold OrderedDict.
  rewrite (dict_update_fresh String.eqb String.eqb_eq); auto.
Qed.

Lemma mem_string_In x l : mem_string x l = true <-> In x l.
Proof.
  unfold mem_string. rewrite existsb_exists. split.
  - intros (y & Hy & E). apply String.eqb_eq in E. now subst.
  - intro H. exists x. split; [exact H | apply String.eqb_refl].
Qed.

(** ** The monad *)

Lemma bind_inv (A B : Type) (m : M A) (k : A -> M B) s r s' :
  bind m k s = (r, s') ->
  (exists a s1, m s = (Ok a, s1) /\ k a s1 = (r, s')) \/
  (exists e, m s = (Raise e, s') /\ r = Raise e).
Proof.
  unfold bind. destruct (m s) as [[a|e] s1]; intro H.
  - left. now exists a, s1.
  - right. exists e. now inversion H.
Qed.

Lemma bind_Ok (A B : Type) (m : M A) (k : A -> M B) s b s' :
  bind m k s = (Ok b, s') ->
  exists a s1, m s = (Ok a, s1) /\ k a s1 = (Ok b, s').
Proof.
  intro H. apply bind_inv in H. destruct H as [H | (e & _ & H)]; [exact H | discriminate].
Qed.

Lemma bind_run (A B : Type) (m : M A) (k : A -> M B) s a s1 :
  m s = (Ok a, s1) -> bind m k s = k a s1.
Proof. unfold bind. now intros ->. Qed.



(** Inversion of a successful step of the monad in a hypothesis. *)
Ltac ok_inv H :=
  let a := fresh "a" in
  let s := fresh "s" in
  let H1 := fresh H in
  apply bind_Ok in H; destruct H as (a & s & H1 & H).

(** ** [construct_yaml_map]: direct pairs, then adopted merge pairs *)

Section YamlMap.
Context {C : Collaborators}.
Variable load : string -> option nat -> bool -> M value.


Lemma merge_items_Ok n e l mp s mp' s' :
  for_each l
    (fun item mp =>
       match item with
       | VDict d => ret (mp ++ d)
       | _ => raise (YAMLError ConstructorError
                       (Some "While constructing a mapping") (Some (node_start_mark n))
                       (Some ("Expected a mapping for merging, but found "
                                ++ type_repr item)%string)
                       (Some (value_mark e)))
       end) mp s = (Ok mp', s') ->
  s' = s.
Proof.
  revert mp. induction l as [|x r IH]; intros mp H; simpl in H.
  - unfold ret in H. now inversion H.
  - ok_inv H. destruct x; try discriminate. unfold ret in H0. inversion H0; subst. eauto.
Qed.










End YamlMap.

(** ** [construct_yaml_map]: duplicate keys *)

Section DuplicateKey.
Context {C : Collaborators}.
Variable load : string -> option nat -> bool -> M value.





End DuplicateKey.




(** ** [_load_yaml_string]: a falsy root *)

Section FalsyRoot.
Context {C : Collaborators}.
Variable load : string -> option nat -> bool -> M value.

Lemma _load_yaml_string_entered content name vars disable s :
  _load_yaml_string load content name vars disable s
  = let (r, s1) := get_single_data load content (entered name vars disable s) in
    let s2 := set_loader (loader_name s) (loader_vars s) (disable_str_expansion s) s1 in
    match r with
    | Ok data => (Ok (or_OrderedDict data), s2)
    | Raise exc => (Raise (if is_YAMLError exc then EsphomeError exc else exc), s2)
    end.
Proof.
  unfold _load_yaml_string, entered. destruct vars as [a|]; reflexivity.
Qed.

(** C10. When the document has no root, or a root that Python takes for false
    (null, an empty mapping or sequence, [false], [0], the empty string),
    [_load_yaml_string] returns an empty ordered mapping, not the root. *)
Theorem falsy_root_loads_as_empty_mapping content name vars disable s root s1 :
  get_single_data load content (entered name vars disable s) = (Ok root, s1) ->
  falsy root ->
  fst (_load_yaml_string load content name vars disable s) = Ok (VDict [])
  /\ Forall (fun v => falsy (Some v)) listed_falsy_roots.
Proof.
  intros Hrun Hfalsy. split.
  - rewrite _load_yaml_string_entered, Hrun. simpl.
    destruct root as [v|]; simpl in *; [now rewrite Hfalsy | reflexivity].
  - repeat constructor.
Qed.

End FalsyRoot.

(** A document that reads [0] loads as the empty mapping. *)
Lemma zero_loads_as_empty_mapping :
  fst (_load_yaml_string (C := LoadExamples.with_docs)
         (_load_yaml_internal (C := LoadExamples.with_docs) 0)
         "0" "main.yaml" None false Toy.initial)
  = Ok (VDict []).
Proof.
  exact (proj1 (@falsy_root_loads_as_empty_mapping LoadExamples.with_docs
                  (_load_yaml_internal (C := LoadExamples.with_docs) 0)
                  "0" "main.yaml" None false Toy.initial (Some (VInt 0))
                  (entered "main.yaml" None false Toy.initial)
                  eq_refl eq_refl)).
Defined.

(** Every listed kind of falsy root, and the empty document, load alike. *)
Example falsy_documents_load_as_empty_mapping :
  Forall (fun content =>
            fst (_load_yaml_string (C := LoadExamples.with_docs)
                   (_load_yaml_internal (C := LoadExamples.with_docs) 0)
                   content "main.yaml" None false Toy.initial)
            = Ok (VDict []))
         [""; "null"; "{}"; "[]"; "false"; "0"; "''"].
Proof. repeat constructor. Qed.

(** ** [represent_float] *)








Section Float.
Context {C : Collaborators}.
Variable registry : list (string * string).


End Float.

Lemma special_floats :
  PrimFloat.is_nan nan = true /\
  (PrimFloat.is_nan infinity = false /\ PrimFloat.is_infinity infinity = true
   /\ PrimFloat.ltb 0%float infinity = true) /\
  (PrimFloat.is_nan neg_infinity = false /\ PrimFloat.is_infinity neg_infinity = true
   /\ PrimFloat.ltb 0%float neg_infinity = false).
Proof. repeat split. Qed.



(** ** [construct_sequence] and [flatten_for] *)

Lemma flatten_for_app items more :
  flatten_for (items ++ more) = flatten_for items ++ flatten_for more.
Proof. unfold flatten_for. apply flat_map_app. Qed.

Lemma flatten_item_no_marker v :
  Forall (fun x => is_marker x = false) (flatten_item v).
Proof.
  induction v using value_nested_ind; simpl; try (repeat constructor; fail).
  induction H as [|x r Hx _ IH]; simpl; [constructor|].
  apply Forall_app. now split.
Qed.

Lemma flatten_for_no_marker items :
  Forall (fun x => is_marker x = false) (flatten_for items).
Proof.
  unfold flatten_for. induction items as [|x r IH]; simpl; [constructor|].
  apply Forall_app. split; [apply flatten_item_no_marker | exact IH].
Qed.

Lemma flatten_for_Spliced_all :
  forall v, (forall l, v = VForList l -> Spliced l (flatten_for l)).
Proof.
  induction v using value_nested_ind; intros l0 E; try discriminate.
  injection E as <-.
  induction H as [|x r Hx _ IH]; [constructor|].
  change (flatten_for (x :: r)) with (flatten_item x ++ flatten_for r).
  destruct x; try (apply Spliced_other; [reflexivity | exact IH]).
  - apply Spliced_none. exact IH.
  - simpl. apply Spliced_for; [|exact IH]. now apply Hx.
Qed.

Lemma flatten_for_Spliced items : Spliced items (flatten_for items).
Proof. now apply (flatten_for_Spliced_all (VForList items)). Qed.

Lemma Spliced_functional items out :
  Spliced items out -> out = flatten_for items.
Proof.
  induction 1 as [| l rest out1 out2 _ IH1 _ IH2 | rest out _ IH | v rest out Hv _ IH].
  - reflexivity.
  - subst. reflexivity.
  - exact IH.
  - subst. change (flatten_for (v :: rest)) with (flatten_item v ++ flatten_for rest).
    destruct v; try discriminate; reflexivity.
Qed.

Section Sequences.

(** C2 as the code has it.  The sequence is the spliced list of its children's
    values, left to right: a [ForList] child gives way to its items, a [ForList]
    among those to its own items in turn and so on at every depth, nulls go
    wherever splicing meets them, and every other value, an ordinary list too,
    stays as it is.  No [ForList] and no null is left at the top of the
    result. *)
Theorem sequence_splices_for_lists n children s items s' :
  sequence children s = (Ok items, s') ->
  construct_yaml_seq n (SequenceView children) s = (Ok (VList (flatten_for items)), s')
  /\ Spliced items (flatten_for items)
  /\ (forall out, Spliced items out -> out = flatten_for items)
  /\ Forall (fun x => is_marker x = false) (flatten_for items).
Proof.
  intro H. split; [|split; [|split]].
  - unfold construct_yaml_seq, construct_sequence.
    unfold bind at 1. unfold bind at 1. now rewrite H.
  - apply flatten_for_Spliced.
  - apply Spliced_functional.
  - apply flatten_for_no_marker.
Qed.

End Sequences.

(** The example of the specification:
    [[1, !for {items: [2, 3], repeat: '{{ item }}'}, 4]] is [[1, '2', '3', 4]]. *)
Lemma for_flattening_example :
  fst (construct_object (C := Examples.plain) (_load_yaml_internal (C := Examples.plain) 0)
         (Toy.seq ForExamples.flattening) Toy.initial)
  = Ok (VList [VInt 1; VStr "2"; VStr "3"; VInt 4]).
Proof.
  exact (f_equal fst
           (proj1 (@sequence_splices_for_lists
                     (Toy.seq ForExamples.flattening)
                     (ForExamples.children_of (C := Examples.plain)
                        (_load_yaml_internal (C := Examples.plain) 0)
                        ForExamples.flattening)
                     Toy.initial
                     [VInt 1; VForList [VStr "2"; VStr "3"]; VInt 4]
                     (set_heap [[]; [("item", VInt 2)]; [("item", VInt 3)]] Toy.initial)
                     eq_refl))).
Defined.

(** A [!for] whose [repeat] is a [!for]: the inner lists are spliced as well,
    which flattening by exactly one level would not do. *)
Lemma nested_for_is_spliced_at_every_depth :
  let inner := VForList [VStr "x"; VStr "x"] in
  fst (sequence (ForExamples.children_of (C := Examples.plain)
                   (_load_yaml_internal (C := Examples.plain) 0) ForExamples.nested)
         Toy.initial)
  = Ok [VForList [inner; inner]]
  /\ fst (construct_object (C := Examples.plain) (_load_yaml_internal (C := Examples.plain) 0)
            (Toy.seq ForExamples.nested) Toy.initial)
     = Ok (VList [VStr "x"; VStr "x"; VStr "x"; VStr "x"])
  /\ spec_flatten_one_level [VForList [inner; inner]] = [inner; inner]
  /\ flatten_for [VForList [inner; inner]] <> spec_flatten_one_level [VForList [inner; inner]].
Proof.
  repeat split. discriminate.
Qed.

(** ** [merge] *)

Lemma index_key_eqb_eq a b : index_key_eqb a b = true <-> a = b.
Proof.
  destruct a as [x|x], b as [y|y]; simpl; split; intro H;
    try discriminate; try (injection H as ->).
  - apply String.eqb_eq in H. now subst.
  - apply String.eqb_refl.
  - apply Nat.eqb_eq in H. now subst.
  - apply Nat.eqb_refl.
Qed.

Lemma fold_left_ext_in {A B : Type} (f g : A -> B -> A) (l : list B) (a : A) :
  (forall x acc, In x l -> f acc x = g acc x) ->
  fold_left f l a = fold_left g l a.
Proof.
  revert a. induction l as [|x r IH]; intros a H; simpl; [reflexivity|].
  rewrite H by now left. apply IH. intros. apply H. now right.
Qed.

Section DictMore.
Context {K V : Type}.
Variable eqb : K -> K -> bool.
Hypothesis eqb_eq : forall a b, eqb a b = true <-> a = b.

Lemma dict_values_set (d : list (K * V)) k v x :
  In x (dict_values (dict_set eqb d k v)) -> x = v \/ In x (dict_values d).
Proof.
  induction d as [|[k' v'] r IH]; simpl.
  - intros [H | []]. now left.
  - destruct (eqb k' k); simpl.
    + intros [H | H]; [now left | right; now right].
    + intros [H | H]; [right; now left |].
      destruct (IH H) as [E | E]; [now left | right; now right].
Qed.

Lemma dict_values_del (d : list (K * V)) k x :
  In x (dict_values (dict_del eqb d k)) -> In x (dict_values d).
Proof.
  induction d as [|[k' v'] r IH]; simpl; [tauto|].
  destruct (eqb k' k); simpl; [now right|].
  intros [H | H]; [now left | right; auto].
Qed.

Lemma dict_get_value (d : list (K * V)) k v :
  dict_get eqb d k = Some v -> In v (dict_values d).
Proof.
  induction d as [|[k' v'] r IH]; simpl; [discriminate|].
  destruct (eqb k' k); [intro H; injection H as ->; now left | right; auto].
Qed.

Lemma dict_get_del_other (d : list (K * V)) k k' :
  k <> k' -> dict_get eqb (dict_del eqb d k) k' = dict_get eqb d k'.
Proof.
  intro N. induction d as [|[k0 v0] r IH]; simpl; [reflexivity|].
  destruct (eqb k0 k) eqn:E; simpl.
  - apply eqb_eq in E. subst k0.
    destruct (eqb k k') eqn:E'; [apply eqb_eq in E'; contradiction | reflexivity].
  - destruct (eqb k0 k'); [reflexivity | exact IH].
Qed.

(** With distinct keys, deleting a key is filtering it out. *)
Lemma dict_del_filter (d : list (K * V)) k :
  NoDup (dict_keys d) ->
  dict_del eqb d k = filter (fun kv => negb (eqb (fst kv) k)) d.
Proof.
  induction d as [|[k0 v0] r IH]; simpl; [reflexivity|].
  intro ND. inversion ND as [|? ? Hn ND']; subst.
  destruct (eqb k0 k) eqn:E; simpl.
  - apply eqb_eq in E. subst k0. symmetry.
    rewrite (proj2 (filter_ext_in_iff _ (fun _ => true) r)).
    + clear. induction r as [|x r IH]; simpl; [reflexivity | now rewrite IH].
    + intros [k1 v1] Hin. simpl.
      destruct (eqb k1 k) eqn:E1; [|reflexivity].
      apply eqb_eq in E1. subst k1. exfalso. apply Hn.
      apply (in_map fst) in Hin. exact Hin.
  - now rewrite IH.
Qed.

Lemma dict_keys_filter_NoDup (d : list (K * V)) (p : K * V -> bool) :
  NoDup (dict_keys d) -> NoDup (dict_keys (filter p d)).
Proof.
  induction d as [|kv r IH]; simpl; [constructor|].
  intro ND. inversion ND as [|? ? Hn ND']; subst.
  destruct (p kv); simpl; [|auto].
  constructor; [|auto].
  intro F. apply Hn. unfold dict_keys in *. apply in_map_iff in F.
  destruct F as (y & Ey & Hy). apply filter_In in Hy. destruct Hy as [Hy _].
  rewrite <- Ey. now apply in_map.
Qed.
End DictMore.

Section Merge.
Context {C : Collaborators}.

Lemma value_height_item x l : In x l -> value_height x < value_height (VList l).
Proof.
  intro H. simpl. apply Nat.lt_succ_r.
  assert (F : Forall (fun k => k <= list_max (map value_height l)) (map value_height l)).
  { now apply list_max_le. }
  rewrite Forall_forall in F. apply F. now apply in_map.
Qed.

Lemma value_height_field (kv : string * value) d :
  In kv d -> value_height (snd kv) < value_height (VDict d).
Proof.
  intro H. simpl. apply Nat.lt_succ_r.
  assert (F : Forall (fun k => k <= list_max (map (fun kv => value_height (snd kv)) d))
                     (map (fun kv => value_height (snd kv)) d)).
  { now apply list_max_le. }
  rewrite Forall_forall in F. apply F.
  now apply (in_map (fun kv => value_height (snd kv))).
Qed.

Lemma build_index_values new x :
  In x (dict_values (build_index new)) -> In x new.
Proof.
  unfold build_index.
  assert (G : forall l index pos,
             In x (dict_values (fst (fold_left index_step l (index, pos)))) ->
             In x (dict_values index) \/ In x l).
  { induction l as [|y r IH]; intros index pos H; simpl in *; [now left|].
    destruct (item_id y) as [i|]; apply IH in H;
      (destruct H as [H | H]; [|right; now right]);
      apply dict_values_set in H;
      (destruct H as [-> | H]; [right; now left | now left]). }
  intro H. apply G in H. destruct H as [[] | H]. exact H.
Qed.

(** Two recursive calls that agree on the items of the new sequence give the
    same reconciliation. *)
Lemma merge_lists_ext rec1 rec2 old new :
  (forall o n, In n new -> rec1 o n = rec2 o n) ->
  merge_lists rec1 old new = merge_lists rec2 old new.
Proof.
  intro H. unfold merge_lists.
  assert (G : forall l acc index,
             (forall x, In x (dict_values index) -> In x new) ->
             fold_left (merge_list_step rec1) l (acc, index)
             = fold_left (merge_list_step rec2) l (acc, index)).
  { induction l as [|y r IH]; intros acc index Hi; simpl; [reflexivity|].
    destruct (item_id y) as [i|]; [|now apply IH].
    destruct (dict_get index_key_eqb index (IdKey i)) as [n|] eqn:E; [|now apply IH].
    rewrite (H y n) by (apply Hi; eapply dict_get_value; exact E).
    apply IH. intros x Hx. apply Hi. eapply dict_values_del. exact Hx. }
  rewrite G; [reflexivity|]. apply build_index_values.
Qed.

Lemma merge_body_ext rec1 rec2 old new :
  (forall o n, value_height n < value_height new -> rec1 o n = rec2 o n) ->
  merge_body rec1 old new = merge_body rec2 old new.
Proof.
  intro H. destruct new; simpl; try reflexivity.
  - destruct old; try reflexivity; f_equal; apply merge_lists_ext;
      intros o n Hn; apply H; now apply value_height_item.
  - destruct old; try reflexivity; f_equal; apply merge_lists_ext;
      intros o n Hn; apply H; now apply (value_height_item n l).
  - destruct old; try reflexivity. f_equal.
    apply fold_left_ext_in. intros [k v] acc Hin. unfold merge_dict_step.
    destruct (dict_get String.eqb d0 k); [|reflexivity].
    rewrite H; [reflexivity|]. now apply (value_height_field (k, v)).
Qed.

(** The recursion of [merge] never runs out of fuel: any bound above the
    height of [new] gives the same result. *)
Lemma merge_fuel_enough fuel :
  forall old new, value_height new < fuel -> merge_fuel fuel old new = merge old new.
Proof.
  induction fuel as [fuel IH] using lt_wf_ind. intros old new Hlt.
  destruct fuel as [|fuel]; [lia|].
  unfold merge. simpl. apply merge_body_ext. intros o n Hn.
  rewrite IH by lia. symmetry. apply IH; lia.
Qed.

Lemma merge_unfold old new : merge old new = merge_body merge old new.
Proof.
  unfold merge at 1. simpl. apply merge_body_ext. intros o n Hn.
  now apply merge_fuel_enough.
Qed.

(** *** The index of the new sequence *)

Lemma ids_cons x r :
  ids (x :: r) = match item_id x with Some i => i :: ids r | None => ids r end.
Proof. unfold ids. simpl. now destruct (item_id x). Qed.

Lemma build_index_keyed new :
  NoDup (ids new) -> build_index new = keyed new 0.
Proof.
  unfold build_index.
  assert (G : forall l index pos,
             NoDup (ids l) ->
             (forall k, In k (dict_keys index) ->
                        match k with
                        | IdKey i => ~ In i (ids l)
                        | PosKey p => p < pos
                        end) ->
             fst (fold_left index_step l (index, pos)) = index ++ keyed l pos).
  { induction l as [|x r IH]; intros index pos ND Hk; simpl.
    - now rewrite app_nil_r.
    - rewrite ids_cons in ND, Hk. destruct (item_id x) as [i|] eqn:E.
      + inversion ND as [|? ? Hi ND']; subst.
        rewrite (dict_set_fresh index_key_eqb).
        * rewrite IH; [now rewrite <- app_assoc | exact ND' |].
          intros k Hin. unfold dict_keys in Hin. rewrite map_app, in_app_iff in Hin.
          destruct Hin as [Hin | [<- | []]]; [|exact Hi].
          specialize (Hk k Hin). destruct k; [|exact Hk].
          intro F. apply Hk. now right.
        * apply (dict_get_None index_key_eqb index_key_eqb_eq).
          intro F. apply (Hk _ F). now left.
      + rewrite (dict_set_fresh index_key_eqb).
        * rewrite IH; [now rewrite <- app_assoc | exact ND |].
          intros k Hin. unfold dict_keys in Hin. rewrite map_app, in_app_iff in Hin.
          destruct Hin as [Hin | [<- | []]]; [|simpl; lia].
          specialize (Hk k Hin). destruct k; [exact Hk | lia].
        * apply (dict_get_None index_key_eqb index_key_eqb_eq).
          intro F. specialize (Hk _ F). simpl in Hk. lia. }
  intro ND. rewrite G; [reflexivity | exact ND | intros k []].
Qed.

Lemma keyed_get new rank i :
  dict_get index_key_eqb (keyed new rank) (IdKey i) = find_id new i.
Proof.
  revert rank. induction new as [|x r IH]; intro rank; simpl; [reflexivity|].
  unfold find_id in *. simpl. destruct (item_id x) as [j|]; simpl.
  - destruct (j =? i); [reflexivity | apply IH].
  - apply IH.
Qed.

Lemma keyed_keys_In new rank k :
  In k (dict_keys (keyed new rank)) ->
  match k with
  | IdKey i => In i (ids new)
  | PosKey p => rank <= p
  end.
Proof.
  revert rank. induction new as [|x r IH]; intro rank; [intros []|].
  rewrite ids_cons. simpl. destruct (item_id x) as [j|]; simpl.
  - intros [<- | H]; [now left|]. specialize (IH _ H). destruct k; [now right | exact IH].
  - intros [<- | H]; [lia|]. specialize (IH _ H). destruct k; [exact IH | lia].
Qed.

Lemma keyed_NoDup new rank :
  NoDup (ids new) -> NoDup (dict_keys (keyed new rank)).
Proof.
  revert rank. induction new as [|x r IH]; intros rank ND; simpl; [constructor|].
  rewrite ids_cons in ND. destruct (item_id x) as [j|]; simpl.
  - inversion ND as [|? ? Hj ND']; subst. constructor; [|now apply IH].
    intro F. apply keyed_keys_In in F. contradiction.
  - constructor; [|now apply IH].
    intro F. apply keyed_keys_In in F. lia.
Qed.

Lemma remaining_unmatched old new rank :
  dict_values (remaining (ids old) (keyed new rank)) = filter (unmatched old) new.
Proof.
  revert rank. induction new as [|x r IH]; intro rank; simpl; [reflexivity|].
  unfold unmatched at 1. destruct (item_id x) as [j|]; simpl.
  - destruct (mem_string j (ids old)); simpl; [apply IH | f_equal; apply IH].
  - f_equal. apply IH.
Qed.

Lemma remaining_cons_absent i consumed index :
  ~ In (IdKey i) (dict_keys index) ->
  remaining (i :: consumed) index = remaining consumed index.
Proof.
  intro N. unfold remaining. apply filter_ext_in. intros [k v] Hin. simpl.
  destruct k as [j|p]; [|reflexivity].
  unfold mem_string. simpl. destruct (j =? i) eqn:E; [|reflexivity].
  apply String.eqb_eq in E. subst j. exfalso. apply N.
  apply (in_map fst) in Hin. exact Hin.
Qed.

Lemma remaining_del i consumed index :
  NoDup (dict_keys index) ->
  remaining consumed (dict_del index_key_eqb index (IdKey i))
  = remaining (i :: consumed) index.
Proof.
  intro ND. rewrite (dict_del_filter index_key_eqb index_key_eqb_eq) by exact ND.
  unfold remaining. induction index as [|[k v] r IH]; simpl; [reflexivity|].
  inversion ND as [|? ? Hn ND']; subst. specialize (IH ND').
  destruct k as [j|p]; simpl.
  - unfold mem_string. simpl. destruct (j =? i); simpl; [exact IH|].
    fold (mem_string j consumed). destruct (mem_string j consumed); simpl; [exact IH|].
    now f_equal.
  - now f_equal.
Qed.

(** The loop over the old sequence, when no [id] repeats in it. *)
Lemma merge_list_loop rec old :
  forall acc index,
    NoDup (ids old) ->
    NoDup (dict_keys index) ->
    fold_left (merge_list_step rec) old (acc, index)
    = (acc ++ map (fun o => match item_id o with
                            | Some i => match dict_get index_key_eqb index (IdKey i) with
                                        | Some n => rec o n
                                        | None => o
                                        end
                            | None => o
                            end) old,
       remaining (ids old) index).
Proof.
  induction old as [|x r IH]; intros acc index ND NDi; simpl.
  - rewrite app_nil_r. f_equal. unfold remaining. symmetry.
    rewrite (proj2 (filter_ext_in_iff _ (fun _ => true) index)).
    + clear. induction index as [|y l IH]; simpl; [reflexivity | now rewrite IH].
    + intros [[j|p] v] _; reflexivity.
  - rewrite ids_cons in *. destruct (item_id x) as [i|] eqn:E.
    + inversion ND as [|? ? Hi ND']; subst.
      assert (Hmap : forall index',
                 (forall j, j <> i -> dict_get index_key_eqb index' (IdKey j)
                                      = dict_get index_key_eqb index (IdKey j)) ->
                 map (fun o => match item_id o with
                               | Some i0 => match dict_get index_key_eqb index' (IdKey i0) with
                                            | Some n => rec o n
                                            | None => o
                                            end
                               | None => o
                               end) r
                 = map (fun o => match item_id o with
                                 | Some i0 => match dict_get index_key_eqb index (IdKey i0) with
                                              | Some n => rec o n
                                              | None => o
                                              end
                                 | None => o
                                 end) r).
      { intros index' Hsame. apply map_ext_in. intros o Ho.
        destruct (item_id o) as [j|] eqn:Ej; [|reflexivity].
        rewrite Hsame; [reflexivity|]. intros ->. apply Hi.
        unfold ids. apply in_flat_map. exists o. split; [exact Ho|]. rewrite Ej. now left. }
      destruct (dict_get index_key_eqb index (IdKey i)) as [n|] eqn:G.
      * rewrite IH; [| exact ND' |].
        -- rewrite <- app_assoc. simpl. f_equal.
           ++ f_equal. f_equal. apply Hmap. intros j Hj.
              apply (dict_get_del_other index_key_eqb index_key_eqb_eq). congruence.
           ++ now apply remaining_del.
        -- rewrite (dict_del_filter index_key_eqb index_key_eqb_eq) by exact NDi.
           now apply dict_keys_filter_NoDup.
      * rewrite IH by assumption. rewrite <- app_assoc. simpl. f_equal.
        symmetry. apply remaining_cons_absent.
        now apply (dict_get_None index_key_eqb index_key_eqb_eq).
    + rewrite IH by assumption. now rewrite <- app_assoc.
Qed.

Lemma find_id_In new i n : find_id new i = Some n -> In n new.
Proof. unfold find_id. intro H. now apply find_some in H. Qed.

(** C3 as the code has it.  When no [id] occurs twice in the old sequence nor
    in the new one, merging two sequences gives the old sequence, in which an
    item that is a mapping with an [id] is replaced by its merge with the item
    of the new sequence that has the same [id] (ids compared as strings), and
    every other item is left alone, followed by the items of the new sequence
    that have no [id] or whose [id] is not in the old sequence, in their order.
    Items without an [id] are never paired by position. *)
Theorem merge_reconciles_by_id old new :
  NoDup (ids old) ->
  NoDup (ids new) ->
  merge (VList old) (VList new)
  = VList (map (reconciled new) old ++ filter (unmatched old) new).
Proof.
  intros NDo NDn. rewrite merge_unfold. simpl. f_equal.
  unfold merge_lists. rewrite build_index_keyed by exact NDn.
  rewrite merge_list_loop; [| exact NDo | now apply keyed_NoDup].
  simpl. f_equal.
  - apply map_ext. intro o. unfold reconciled.
    destruct (item_id o) as [i|]; [|reflexivity]. now rewrite keyed_get.
  - apply remaining_unmatched.
Qed.

End Merge.

(** The example of the specification:
    [!merge [[{id: a, v: 1}, {id: b, v: 2}], [{id: b, v: 9}, {id: c, v: 3}]]]. *)
Lemma merge_by_id_example :
  fold_left (merge (C := Examples.plain))
            [MergeExamples.first; MergeExamples.second] VNone
  = VList [MergeExamples.item "a" 1; MergeExamples.item "b" 9; MergeExamples.item "c" 3].
Proof.
  simpl fold_left.
  change (merge (C := Examples.plain) VNone MergeExamples.first) with MergeExamples.first.
  unfold MergeExamples.first, MergeExamples.second.
  rewrite (@merge_reconciles_by_id Examples.plain);
    [reflexivity | repeat constructor; simpl; intuition discriminate
                 | repeat constructor; simpl; intuition discriminate].
Defined.

(** Two sequences of plain numbers: the code appends, where pairing the items
    by positional rank, as the specification has it, would merge them. *)
Lemma positional_items_are_appended :
  merge (C := Examples.plain) (VList [VInt 1]) (VList [VInt 2]) = VList [VInt 1; VInt 2]
  /\ spec_merge_lists (C := Examples.plain) [VInt 1] [VInt 2] = [VInt 2]
  /\ merge (C := Examples.plain) (VList [VInt 1]) (VList [VInt 2])
     <> VList (spec_merge_lists (C := Examples.plain) [VInt 1] [VInt 2]).
Proof. repeat split. discriminate. Qed.

(** ** [load_vars] *)

Section Substitutions.
Context {C : Collaborators}.






Lemma dict_update_get (other d : dict) k :
  NoDup (dict_keys other) ->
  dict_get String.eqb (dict_update String.eqb d other) k
  = match dict_get String.eqb other k with
    | Some v => Some v
    | None => dict_get String.eqb d k
    end.
Proof.
  unfold dict_update. revert d. induction other as [|[k0 v0] r IH]; intros d ND; simpl.
  - reflexivity.
  - inversion ND as [|? ? Hn ND']; subst.
    rewrite IH by exact ND'. rewrite (dict_get_set String.eqb String.eqb_eq).
    destruct (k0 =? k) eqn:E; [|reflexivity].
    apply String.eqb_eq in E. subst k0.
    now rewrite (proj2 (dict_get_None String.eqb String.eqb_eq r k) Hn).
Qed.

(** The engine's contract for a template that only refers to one variable. *)
Variable reference : string -> string.
Hypothesis reference_defined :
  forall x vars v, dict_get String.eqb vars x = Some v ->
                   expand_str (reference x) vars = Expanded (py_str v).
Hypothesis reference_undefined :
  forall x vars, dict_get String.eqb vars x = None ->
                 exists message, expand_str (reference x) vars = UndefinedError message.


End Substitutions.






(** ** Secrets: the registry and the dumper *)

Section Redaction.
Context {C : Collaborators}.
Variable registry : list (string * string).
Variable default_flow_style : option bool.








End Redaction.

Section Secrets.
Context {C : Collaborators}.
Variable load : string -> option nat -> bool -> M value.



End Secrets.



(** A secret under the empty name: [is_secret] returns the empty string, which
    Python takes for false, and the value is dumped as it is. *)
Lemma empty_name_is_not_redacted :
  let run := load_yaml (C := SecretExamples.with_files) 2 "leak.yaml" true None Toy.initial in
  fst run = Ok (VDict [("t", VStr "token")])
  /\ SECRET_VALUES (snd run) = [("token", "")]
  /\ represent_data (C := SecretExamples.with_files) (SECRET_VALUES (snd run)) (Some false)
                    (VStr "token")
     = Ok (RScalar tag_str "token" None).
Proof. repeat split. Qed.

(** ** What the construction pass leaves alone *)

Lemma stable_refl s : stable s s.
Proof. repeat split; auto. exists []. now rewrite app_nil_r. Qed.

Lemma stable_trans s1 s2 s3 : stable s1 s2 -> stable s2 s3 -> stable s1 s3.
Proof.
  intros (L1 & D1 & C1 & N1 & [m1 R1]) (L2 & D2 & C2 & N2 & [m2 R2]).
  repeat split.
  - lia.
  - intros a Ha. rewrite D2 by lia. now apply D1.
  - congruence.
  - congruence.
  - exists (m1 ++ m2). now rewrite R2, R1, app_assoc.
Qed.

Lemma stable_loader name vars disable s : loader_name s = name -> stable s (set_loader name vars disable s).
Proof.
  intro E. repeat split; auto. exists []. simpl. now rewrite app_nil_r.
Qed.

Lemma stable_alloc s d : stable s (set_heap (heap s ++ [d]) s).
Proof.
  repeat split; simpl.
  - rewrite length_app. lia.
  - intros a Ha. unfold deref. simpl. now apply app_nth1.
  - exists []. now rewrite app_nil_r.
Qed.

Section Preserving.
Context {A B : Type}.

Lemma preserving_ret (a : A) : preserving (ret a).
Proof. intro s. apply stable_refl. Qed.

Lemma preserving_raise e : preserving (@raise A e).
Proof. intro s. apply stable_refl. Qed.

Lemma preserving_gets (f : state -> A) : preserving (gets f).
Proof. intro s. apply stable_refl. Qed.

Lemma preserving_lift (r : result A) : preserving (lift_result r).
Proof. intro s. apply stable_refl. Qed.

Lemma preserving_bind_run (m : M A) (k : A -> M B) :
  preserving m ->
  (forall a s s', m s = (Ok a, s') -> preserving (k a)) ->
  preserving (bind m k).
Proof.
  intros Hm Hk s. unfold bind. specialize (Hm s).
  destruct (m s) as [[a|e] s1] eqn:E; simpl in *; [|exact Hm].
  eapply stable_trans; [exact Hm|]. apply (Hk a s s1 E).
Qed.

Lemma preserving_bind (m : M A) (k : A -> M B) :
  preserving m -> (forall a, preserving (k a)) -> preserving (bind m k).
Proof. intros Hm Hk. apply preserving_bind_run; auto. Qed.

Lemma restoring_ret (a : A) : restoring (ret a).
Proof. intros s a' s' H. unfold ret in H. now inversion H. Qed.

Lemma restoring_raise e : restoring (@raise A e).
Proof. intros s a' s' H. discriminate. Qed.

Lemma restoring_gets (f : state -> A) : restoring (gets f).
Proof. intros s a' s' H. unfold gets in H. now inversion H. Qed.

Lemma restoring_lift (r : result A) : restoring (lift_result r).
Proof. intros s a' s' H. unfold lift_result in H. now inversion H. Qed.

Lemma restoring_bind_run (m : M A) (k : A -> M B) :
  restoring m ->
  (forall a s s', m s = (Ok a, s') -> restoring (k a)) ->
  restoring (bind m k).
Proof.
  intros Hm Hk s b s' H. apply bind_Ok in H. destruct H as (a & s1 & H1 & H2).
  destruct (Hm _ _ _ H1) as [V1 D1]. destruct (Hk _ _ _ H1 _ _ _ H2) as [V2 D2].
  split; congruence.
Qed.

Lemma restoring_bind (m : M A) (k : A -> M B) :
  restoring m -> (forall a, restoring (k a)) -> restoring (bind m k).
Proof. intros Hm Hk. apply restoring_bind_run; auto. Qed.

Lemma well_behaved_bind_run (m : M A) (k : A -> M B) :
  well_behaved m ->
  (forall a s s', m s = (Ok a, s') -> well_behaved (k a)) ->
  well_behaved (bind m k).
Proof.
  intros [P1 R1] Hk. split.
  - apply preserving_bind_run; [exact P1|]. intros a s s' H. now apply (Hk a s s' H).
  - apply restoring_bind_run; [exact R1|]. intros a s s' H. now apply (Hk a s s' H).
Qed.

Lemma well_behaved_bind (m : M A) (k : A -> M B) :
  well_behaved m -> (forall a, well_behaved (k a)) -> well_behaved (bind m k).
Proof. intros Hm Hk. apply well_behaved_bind_run; auto. Qed.

Lemma well_behaved_ret (a : A) : well_behaved (ret a).
Proof. split; [apply preserving_ret | apply restoring_ret]. Qed.

Lemma well_behaved_raise e : well_behaved (@raise A e).
Proof. split; [apply preserving_raise | apply restoring_raise]. Qed.

Lemma well_behaved_gets (f : state -> A) : well_behaved (gets f).
Proof. split; [apply preserving_gets | apply restoring_gets]. Qed.

Lemma well_behaved_lift (r : result A) : well_behaved (lift_result r).
Proof. split; [apply preserving_lift | apply restoring_lift]. Qed.
End Preserving.

Lemma preserving_modify (f : state -> state) :
  (forall s, stable s (f s)) -> preserving (modify f).
Proof. intros H s. apply H. Qed.

Lemma restoring_modify (f : state -> state) :
  (forall s, loader_vars (f s) = loader_vars s
             /\ disable_str_expansion (f s) = disable_str_expansion s) ->
  restoring (modify f).
Proof. intros H s a s' E. unfold modify in E. inversion E; subst. apply H. Qed.

Lemma preserving_set_disable b : preserving (modify (set_disable b)).
Proof. apply preserving_modify. intro s. now apply stable_loader. Qed.

Lemma preserving_set_vars a : preserving (modify (set_vars a)).
Proof. apply preserving_modify. intro s. now apply stable_loader. Qed.

Lemma well_behaved_alloc d : well_behaved (alloc d).
Proof.
  split.
  - intro s. apply stable_alloc.
  - intros s a s' H. unfold alloc in H. now inversion H.
Qed.

Lemma well_behaved_print v : well_behaved (print v).
Proof.
  split.
  - apply preserving_modify. intro s. repeat split; auto. exists []. simpl.
    now rewrite app_nil_r.
  - apply restoring_modify. now split.
Qed.

Lemma well_behaved_register (f : state -> list (string * string)) :
  well_behaved (modify (fun s => set_SECRET_VALUES (f s) s)).
Proof.
  split.
  - apply preserving_modify. intro s. repeat split; auto. exists []. simpl.
    now rewrite app_nil_r.
  - apply restoring_modify. now split.
Qed.

Lemma well_behaved_log fname :
  well_behaved (modify (fun s => set_reads (reads s ++ [fname]) s)).
Proof.
  split.
  - apply preserving_modify. intro s. repeat split; auto. now exists [fname].
  - apply restoring_modify. now split.
Qed.

Lemma well_behaved_for_each {A B : Type} (xs : list A) (body : A -> B -> M B) :
  Forall (fun x => forall acc, well_behaved (body x acc)) xs ->
  forall acc, well_behaved (for_each xs body acc).
Proof.
  induction 1 as [|x r Hx _ IH]; intro acc; simpl.
  - apply well_behaved_ret.
  - apply well_behaved_bind; [apply Hx | exact IH].
Qed.

Lemma preserving_for_each {A B : Type} (xs : list A) (body : A -> B -> M B) :
  Forall (fun x => forall acc, preserving (body x acc)) xs ->
  forall acc, preserving (for_each xs body acc).
Proof.
  induction 1 as [|x r Hx _ IH]; intro acc; simpl.
  - apply preserving_ret.
  - apply preserving_bind; [apply Hx | exact IH].
Qed.

Lemma well_behaved_sequence {A : Type} (ms : list (M A)) :
  Forall well_behaved ms -> well_behaved (sequence ms).
Proof.
  induction 1 as [|m r Hm _ IH]; simpl.
  - apply well_behaved_ret.
  - apply well_behaved_bind; [exact Hm|]. intro x.
    apply well_behaved_bind; [exact IH|]. intro xs. apply well_behaved_ret.
Qed.

Lemma Forall_all {A : Type} (P : A -> Prop) (l : list A) :
  (forall x, P x) -> Forall P l.
Proof. intro H. apply Forall_forall. auto. Qed.

(** One step in the proof that a computation is well behaved. *)
Ltac wb_step :=
  match goal with
  | |- well_behaved (ret _) => apply well_behaved_ret
  | |- well_behaved (raise _) => apply well_behaved_raise
  | |- well_behaved (gets _) => apply well_behaved_gets
  | |- well_behaved (lift_result _) => apply well_behaved_lift
  | |- well_behaved (alloc _) => apply well_behaved_alloc
  | |- well_behaved (print _) => apply well_behaved_print
  | |- well_behaved (bind _ _) => apply well_behaved_bind; [|intro]
  | |- well_behaved (for_each _ _ _) => apply well_behaved_for_each
  | |- well_behaved (sequence _) => apply well_behaved_sequence
  | |- well_behaved (match ?x with _ => _ end) => destruct x
  | H : Forall ?P ?l |- Forall ?P ?l => exact H
  | |- Forall _ (map _ _) => apply Forall_map
  | |- Forall _ _ => apply Forall_all; intros
  | |- forall _, _ => intro
  | H : well_behaved ?m |- well_behaved ?m => exact H
  end.

Ltac wb := repeat wb_step.


(** One step in the proof that a computation preserves the state. *)
Ltac preserve_step :=
  match goal with
  | |- preserving (ret _) => apply preserving_ret
  | |- preserving (raise _) => apply preserving_raise
  | |- preserving (gets _) => apply preserving_gets
  | |- preserving (lift_result _) => apply preserving_lift
  | |- preserving (alloc _) => apply well_behaved_alloc
  | |- preserving (modify (set_disable _)) => apply preserving_set_disable
  | |- preserving (modify (set_vars _)) => apply preserving_set_vars
  | |- preserving (bind _ _) => apply preserving_bind; [|intro]
  | |- preserving (for_each _ _ _) => apply preserving_for_each
  | |- preserving (match ?x with _ => _ end) => destruct x
  | |- Forall _ _ => apply Forall_all; intros
  | |- forall _, _ => intro
  | H : well_behaved ?m |- preserving ?m => exact (proj1 H)
  | H : forall tag, well_behaved (?m tag) |- preserving (?m _) => exact (proj1 (H _))
  end.

Ltac preserve := repeat preserve_step.

Section Handlers.
Context {C : Collaborators}.
Variable load : string -> option nat -> bool -> M value.
Hypothesis load_well_behaved :
  forall fname vars disable, well_behaved (load fname vars disable).

Lemma get_vars_well_behaved : well_behaved get_vars.
Proof. unfold get_vars. wb. Qed.

Lemma copy_vars_well_behaved : well_behaved copy_vars.
Proof. unfold copy_vars, get_vars. wb. Qed.

Lemma _rel_path_well_behaved arg : well_behaved (_rel_path arg).
Proof. unfold _rel_path. wb. Qed.

Lemma construct_inherited_well_behaved tag n : well_behaved (construct_inherited tag n).
Proof. unfold construct_inherited. wb. Qed.

Lemma construct_yaml_str_well_behaved n : well_behaved (construct_yaml_str n).
Proof. unfold construct_yaml_str, get_vars. wb. Qed.

Lemma construct_sequence_well_behaved n v :
  well_behaved_view v -> well_behaved (construct_sequence n v).
Proof. intro H. unfold construct_sequence. destruct v; simpl in H; wb. Qed.

Lemma construct_yaml_seq_well_behaved n v :
  well_behaved_view v -> well_behaved (construct_yaml_seq n v).
Proof.
  intro H. unfold construct_yaml_seq.
  apply well_behaved_bind; [now apply construct_sequence_well_behaved | wb].
Qed.

Lemma collect_pair_well_behaved e a :
  well_behaved_entry e -> well_behaved (collect_pair e a).
Proof.
  intros [Hk Hv]. split.
  - unfold collect_pair. preserve.
  - intros s a' s' H. unfold collect_pair in H.
    ok_inv H. ok_inv H. ok_inv H. ok_inv H. ok_inv H.
    unfold gets in H0. inversion H0; subst.
    unfold modify in H1, H3. inversion H1; subst. inversion H3; subst.
    destruct (proj2 (Hk _) _ _ _ H2) as [V2 D2].
    destruct (proj2 Hv _ _ _ H4) as [V4 D4].
    assert (s' = s4).
    { destruct (negb (hashable a2)); [discriminate|].
      destruct (dict_get String.eqb (seen_keys a) (py_str a2)); [discriminate|].
      unfold ret in H. now inversion H. }
    subst s'. simpl in *. split; congruence.
Qed.

Lemma collect_merge_well_behaved n e a :
  well_behaved_entry e -> well_behaved (collect_merge n e a).
Proof. intros [Hk Hv]. unfold collect_merge. wb. Qed.

Lemma collect_well_behaved n entries :
  Forall well_behaved_entry entries -> well_behaved (collect n entries).
Proof.
  intro H. unfold collect. apply well_behaved_for_each.
  eapply Forall_impl; [|exact H]. intros e He acc. unfold collect_entry.
  destruct (key_tag e =? tag_merge);
    [now apply collect_merge_well_behaved | now apply collect_pair_well_behaved].
Qed.

Lemma construct_yaml_map_well_behaved n v :
  well_behaved_view v -> well_behaved (construct_yaml_map n v).
Proof.
  intro H. unfold construct_yaml_map. destruct v; simpl in H; wb.
  now apply collect_well_behaved.
Qed.

Lemma construct_env_var_well_behaved n v : well_behaved (construct_env_var n v).
Proof. unfold construct_env_var. wb. Qed.

Lemma construct_secret_well_behaved n v : well_behaved (construct_secret load n v).
Proof.
  unfold construct_secret. wb; try apply load_well_behaved;
    try apply _rel_path_well_behaved; try apply copy_vars_well_behaved;
    try apply well_behaved_register.
Qed.

Lemma extract_file_vars_well_behaved n v :
  well_behaved_view v -> well_behaved (extract_file_vars n v).
Proof.
  intro H. unfold extract_file_vars.
  apply well_behaved_bind; [now apply construct_yaml_map_well_behaved|].
  intro m. wb; apply _rel_path_well_behaved.
Qed.

Lemma construct_include_well_behaved n v :
  well_behaved_view v -> well_behaved (construct_include load n v).
Proof.
  intro H. unfold construct_include.
  apply well_behaved_bind.
  - destruct v; wb; try apply _rel_path_well_behaved.
    now apply extract_file_vars_well_behaved.
  - intro pv. wb; try apply get_vars_well_behaved. apply load_well_behaved.
Qed.

Lemma construct_literal_well_behaved n v :
  well_behaved_view v -> well_behaved (construct_literal n v).
Proof.
  intro H.
  assert (Hin : well_behaved match v with
                             | ScalarView _ => construct_yaml_str n
                             | SequenceView _ => construct_yaml_seq n v
                             | MappingView _ => construct_yaml_map n v
                             end).
  { destruct v; [apply construct_yaml_str_well_behaved
                | now apply construct_yaml_seq_well_behaved
                | now apply construct_yaml_map_well_behaved]. }
  split.
  - unfold construct_literal. preserve.
  - intros s a s' E. unfold construct_literal in E.
    ok_inv E. ok_inv E. ok_inv E. ok_inv E.
    unfold gets in E0. inversion E0; subst.
    unfold modify in E1, E3. inversion E1; subst. inversion E3; subst.
    destruct (proj2 Hin _ _ _ E2) as [V2 D2].
    unfold ret in E. inversion E; subst. simpl in *. split; congruence.
Qed.

(** *** [!for] *)

Lemma list_set_last {A : Type} (l : list A) (x y : A) :
  list_set (l ++ [x]) (length l) y = l ++ [y].
Proof. induction l as [|z r IH]; simpl; [reflexivity | now rewrite IH]. Qed.

(** Every iteration constructs [repeat] in the state [loop_state]: the
    environment is a fresh copy of the parent's, with the variable bound. *)
Lemma for_iteration_loop_state oldvars varname (repeat : M value) i result s :
  for_iteration oldvars varname repeat i result s
  = (obj <- repeat ;; ret (result ++ [obj])) (loop_state oldvars varname i s).
Proof.
  unfold for_iteration, loop_state, bind, gets, alloc, modify, store, deref. simpl.
  rewrite nth_middle, list_set_last. reflexivity.
Qed.

Lemma stable_loop_state oldvars varname i s : stable s (loop_state oldvars varname i s).
Proof.
  unfold loop_state. repeat split; simpl.
  - rewrite length_app. lia.
  - intros a Ha. unfold deref. simpl. now apply app_nth1.
  - exists []. now rewrite app_nil_r.
Qed.

Lemma for_iteration_preserving oldvars varname (repeat : M value) i result :
  well_behaved repeat -> preserving (for_iteration oldvars varname repeat i result).
Proof.
  intros W s. rewrite for_iteration_loop_state.
  apply stable_trans with (s2 := loop_state oldvars varname i s);
    [apply stable_loop_state|].
  assert (G : preserving (obj <- repeat ;; ret (result ++ [obj]))) by preserve.
  apply G.
Qed.

Lemma for_iterations_keep_flag oldvars varname (repeat : M value) items :
  well_behaved repeat ->
  forall result s result' s',
    for_each items (for_iteration oldvars varname repeat) result s = (Ok result', s') ->
    disable_str_expansion s' = disable_str_expansion s.
Proof.
  intros [_ R]. induction items as [|i r IH]; intros result s result' s' H; simpl in H.
  - unfold ret in H. now inversion H.
  - ok_inv H. rewrite for_iteration_loop_state in H0. ok_inv H0.
    unfold ret in H0. inversion H0; subst.
    destruct (R _ _ _ H1) as [_ D]. rewrite (IH _ _ _ _ H). exact D.
Qed.

Lemma for_fields_well_behaved e acc :
  well_behaved_entry e -> well_behaved (for_fields e acc).
Proof. intros [Hk Hv]. unfold for_fields. destruct acc as [[items varname] repeat]. wb. apply Hk. Qed.

Lemma for_fields_closures entries :
  Forall well_behaved_entry entries ->
  forall acc s fields s',
    well_behaved_option (snd acc) ->
    for_each entries for_fields acc s = (Ok fields, s') ->
    well_behaved_option (snd fields).
Proof.
  induction 1 as [|e r He _ IH]; intros acc s fields s' Hacc H; simpl in H.
  - unfold ret in H. now inversion H; subst.
  - ok_inv H. eapply IH; [|exact H].
    destruct acc as [[items varname] repeat]. unfold for_fields in H0.
    ok_inv H0. ok_inv H0. ok_inv H0. unfold ret in H0. inversion H0; subst. simpl.
    destruct (eq_str a0 "repeat"); [apply He | exact Hacc].
Qed.

Lemma construct_for_well_behaved n v :
  well_behaved_view v -> well_behaved (construct_for n v).
Proof.
  intro Hv.
  assert (He : Forall well_behaved_entry (view_entries v)).
  { destruct v; simpl in *; [constructor | constructor | exact Hv]. }
  assert (Hfields : well_behaved (for_each (view_entries v) for_fields
                                           (VNone, VStr "item", None))).
  { apply well_behaved_for_each. eapply Forall_impl; [|exact He].
    intros e H acc. now apply for_fields_well_behaved. }
  unfold construct_for.
  apply well_behaved_bind; [wb|]. intros [|]; [wb|].
  destruct (unpack_failure v); [wb|].
  apply well_behaved_bind_run; [exact Hfields|].
  intros [[items varname] repeat] s0 s1 Hrun.
  pose proof (for_fields_closures _ He (VNone, VStr "item", None) _ _ _ I Hrun) as Hrep. simpl in Hrep.
  apply well_behaved_bind.
  { destruct items; wb; apply get_vars_well_behaved. }
  intro items'.
  destruct items'; try (wb; fail);
    (destruct varname; try (wb; fail);
     (destruct repeat as [repeat|]; [|wb]));
    (split;
     [ preserve; now apply for_iteration_preserving
     | intros st0 res st1 E; ok_inv E; ok_inv E; ok_inv E;
       unfold gets in E0; inversion E0; subst;
       pose proof (for_iterations_keep_flag _ _ _ _ Hrep _ _ _ _ E1) as D;
       unfold modify in E2; inversion E2; subst;
       unfold ret in E; inversion E; subst; simpl; split; [reflexivity | exact D] ]).
Qed.

(** *** [!if] *)

Lemma if_fields_well_behaved e acc :
  well_behaved_entry e -> well_behaved (if_fields e acc).
Proof.
  intros [Hk Hv]. unfold if_fields. destruct acc as [[condition then_node] else_node].
  wb. apply Hk.
Qed.

Lemma if_fields_closures entries :
  Forall well_behaved_entry entries ->
  forall acc s fields s',
    well_behaved_option (snd (fst acc)) /\ well_behaved_option (snd acc) ->
    for_each entries if_fields acc s = (Ok fields, s') ->
    well_behaved_option (snd (fst fields)) /\ well_behaved_option (snd fields).
Proof.
  induction 1 as [|e r He _ IH]; intros acc s fields s' Hacc H; simpl in H.
  - unfold ret in H. now inversion H; subst.
  - ok_inv H. eapply IH; [|exact H].
    destruct acc as [[condition then_node] else_node]. unfold if_fields in H0.
    ok_inv H0. ok_inv H0. unfold ret in H0. inversion H0; subst. simpl in *.
    destruct Hacc as [Hthen Helse].
    split; [destruct (eq_str a0 "then") | destruct (eq_str a0 "else")];
      try apply He; assumption.
Qed.

Lemma construct_if_well_behaved n v :
  well_behaved_view v -> well_behaved (construct_if n v).
Proof.
  intro Hv.
  assert (He : Forall well_behaved_entry (view_entries v)).
  { destruct v; simpl in *; [constructor | constructor | exact Hv]. }
  unfold construct_if.
  apply well_behaved_bind; [wb|]. intros [|]; [wb|].
  destruct (unpack_failure v); [wb|].
  apply well_behaved_bind_run.
  { apply well_behaved_for_each. eapply Forall_impl; [|exact He].
    intros e H acc. now apply if_fields_well_behaved. }
  intros [[condition then_node] else_node] s0 s1 Hrun.
  destruct (if_fields_closures _ He (VNone, None, None) _ _ _ (conj I I) Hrun) as [Ht Hel]. simpl in Ht, Hel.
  destruct then_node as [then_node|]; [|wb].
  destruct (truthy condition); [exact Ht|].
  destruct else_node as [else_node|]; [exact Hel | wb].
Qed.

(** *** The other directives *)

Lemma construct_merge_well_behaved n v :
  well_behaved_view v -> well_behaved (construct_merge n v).
Proof.
  intro Hv. unfold construct_merge.
  apply well_behaved_bind; [wb|]. intros [|]; [wb|].
  destruct v; try (wb; fail).
  apply well_behaved_bind; [now apply construct_sequence_well_behaved | wb].
Qed.

Lemma include_dir_files_well_behaved v : well_behaved (include_dir_files v).
Proof. unfold include_dir_files. wb. apply _rel_path_well_behaved. Qed.

Lemma load_with_copy_well_behaved fname : well_behaved (load_with_copy load fname).
Proof.
  unfold load_with_copy. wb; [apply copy_vars_well_behaved | apply load_well_behaved].
Qed.

Lemma construct_include_dir_list_well_behaved n v :
  well_behaved (construct_include_dir_list load n v).
Proof.
  unfold construct_include_dir_list. wb;
    first [apply include_dir_files_well_behaved | apply load_with_copy_well_behaved].
Qed.

Lemma construct_include_dir_merge_list_well_behaved n v :
  well_behaved (construct_include_dir_merge_list load n v).
Proof.
  unfold construct_include_dir_merge_list. wb;
    first [apply include_dir_files_well_behaved | apply load_with_copy_well_behaved].
Qed.

Lemma construct_include_dir_named_well_behaved n v :
  well_behaved (construct_include_dir_named load n v).
Proof.
  unfold construct_include_dir_named. wb;
    first [apply include_dir_files_well_behaved | apply load_with_copy_well_behaved].
Qed.

Lemma construct_include_dir_merge_named_well_behaved n v :
  well_behaved (construct_include_dir_merge_named load n v).
Proof.
  unfold construct_include_dir_merge_named. wb;
    first [apply include_dir_files_well_behaved | apply load_with_copy_well_behaved].
Qed.

Lemma construct_lambda_well_behaved n v : well_behaved (construct_lambda n v).
Proof. unfold construct_lambda. wb. apply construct_yaml_str_well_behaved. Qed.

Lemma construct_force_well_behaved n v : well_behaved (construct_force n v).
Proof. unfold construct_force. wb. Qed.

Lemma construct_node_well_behaved tag n v :
  well_behaved_view v -> well_behaved (construct_node load tag n v).
Proof.
  intro Hv. unfold construct_node.
  repeat match goal with
         | |- well_behaved (if ?b then _ else _) => destruct b
         end;
    first [ apply construct_yaml_str_well_behaved
          | now apply construct_yaml_seq_well_behaved
          | now apply construct_yaml_map_well_behaved
          | apply construct_env_var_well_behaved
          | apply construct_secret_well_behaved
          | now apply construct_include_well_behaved
          | now apply construct_literal_well_behaved
          | now apply construct_for_well_behaved
          | now apply construct_if_well_behaved
          | now apply construct_merge_well_behaved
          | apply construct_include_dir_list_well_behaved
          | apply construct_include_dir_merge_list_well_behaved
          | apply construct_include_dir_named_well_behaved
          | apply construct_include_dir_merge_named_well_behaved
          | apply construct_lambda_well_behaved
          | apply construct_force_well_behaved
          | apply construct_inherited_well_behaved
          | unfold construct_undefined; wb ].
Qed.

Lemma construct_tagged_well_behaved n :
  forall tag, well_behaved (construct_tagged load n tag).
Proof.
  induction n as [tag0 text mark | tag0 items mark IH | tag0 items mark IH]
    using node_nested_ind; intro tag; simpl.
  - now apply construct_node_well_behaved.
  - apply construct_node_well_behaved. simpl. apply Forall_map.
    eapply Forall_impl; [|exact IH]. intros child H. apply H.
  - apply construct_node_well_behaved. simpl. apply Forall_map.
    eapply Forall_impl; [|exact IH]. intros [k v] [Hk Hv]. simpl in *.
    split; simpl; [exact Hk | apply Hv].
Qed.

Lemma construct_object_well_behaved n : well_behaved (construct_object load n).
Proof. apply construct_tagged_well_behaved. Qed.

Lemma get_single_data_well_behaved content : well_behaved (get_single_data load content).
Proof. unfold get_single_data. wb. apply construct_object_well_behaved. Qed.

Lemma _load_yaml_string_well_behaved content name vars disable :
  well_behaved (_load_yaml_string load content name vars disable).
Proof.
  split.
  - intro s. rewrite _load_yaml_string_entered.
    pose proof (proj1 (get_single_data_well_behaved content) (entered name vars disable s)) as P.
    destruct (get_single_data load content (entered name vars disable s)) as [r s1].
    simpl in P. destruct P as (L & D & Cc & _ & [more R]).
    assert (G : stable s (set_loader (loader_name s) (loader_vars s)
                                     (disable_str_expansion s) s1)).
    { destruct vars as [a|]; simpl in *.
      - repeat split; simpl; auto. now exists more.
      - rewrite length_app in L. simpl in L. repeat split; simpl; auto.
        + lia.
        + intros a Ha. unfold deref in *. simpl in *.
          rewrite D by (rewrite length_app; simpl; lia). now apply app_nth1.
        + now exists more. }
    destruct r; exact G.
  - intros s a s' H. rewrite _load_yaml_string_entered in H.
    destruct (get_single_data load content (entered name vars disable s)) as [r s1].
    destruct r; inversion H; subst; simpl; now split.
Qed.

Lemma load_file_well_behaved fname : well_behaved (load_file fname).
Proof. unfold load_file. wb. apply well_behaved_log. Qed.

Lemma _load_yaml_internal_body_well_behaved fname vars disable :
  well_behaved (_load_yaml_internal_body load fname vars disable).
Proof.
  unfold _load_yaml_internal_body. wb;
    [apply load_file_well_behaved | apply _load_yaml_string_well_behaved].
Qed.

End Handlers.

Section Loader.
Context {C : Collaborators}.

Lemma _load_yaml_internal_well_behaved depth :
  forall fname vars disable, well_behaved (_load_yaml_internal depth fname vars disable).
Proof.
  induction depth as [|depth IH]; intros fname vars disable; simpl.
  - apply well_behaved_raise.
  - now apply _load_yaml_internal_body_well_behaved.
Qed.

Lemma cache_preserved {A : Type} (m : M A) s :
  preserving m -> SECRET_CACHE (snd (m s)) = SECRET_CACHE s.
Proof. intro P. now destruct (P s) as (_ & _ & Cc & _). Qed.

Lemma load_yaml_cache depth fname clear_secrets vars s :
  SECRET_CACHE (snd (load_yaml depth fname clear_secrets vars s))
  = if clear_secrets then [] else SECRET_CACHE s.
Proof.
  unfold load_yaml.
  destruct vars as [a|]; destruct clear_secrets.
  - rewrite (bind_run _ _ _ _ s a s eq_refl).
    rewrite (bind_run _ _ _ _ s tt (set_SECRET_CACHE [] (set_SECRET_VALUES [] s)) eq_refl).
    etransitivity; [apply cache_preserved; preserve; apply _load_yaml_internal_well_behaved|].
    reflexivity.
  - rewrite (bind_run _ _ _ _ s a s eq_refl).
    rewrite (bind_run _ _ _ _ s tt s eq_refl).
    etransitivity; [apply cache_preserved; preserve; apply _load_yaml_internal_well_behaved|].
    reflexivity.
  - rewrite (bind_run _ _ _ _ s (length (heap s)) (set_heap (heap s ++ [[]]) s) eq_refl).
    rewrite (bind_run _ _ _ _ (set_heap (heap s ++ [[]]) s) tt
               (set_SECRET_CACHE [] (set_SECRET_VALUES [] (set_heap (heap s ++ [[]]) s)))
               eq_refl).
    etransitivity; [apply cache_preserved; preserve; apply _load_yaml_internal_well_behaved|].
    reflexivity.
  - rewrite (bind_run _ _ _ _ s (length (heap s)) (set_heap (heap s ++ [[]]) s) eq_refl).
    rewrite (bind_run _ _ _ _ (set_heap (heap s ++ [[]]) s) tt
               (set_heap (heap s ++ [[]]) s) eq_refl).
    etransitivity; [apply cache_preserved; preserve; apply _load_yaml_internal_well_behaved|].
    reflexivity.
Qed.

End Loader.

(** ** The environment of [!for], and the document cache *)

Lemma bind_assoc_run {A B D : Type} (m : M A) (f : A -> M B) (g : B -> M D) s :
  bind (bind m f) g s = bind m (fun x => bind (f x) g) s.
Proof. unfold bind. destruct (m s) as [[a|e] s1]; reflexivity. Qed.

Lemma reads_extended {A : Type} (m : M A) s :
  preserving m -> exists more, reads (snd (m s)) = reads s ++ more.
Proof. intro P. now destruct (P s) as (_ & _ & _ & _ & R). Qed.

Section Scope.
Context {C : Collaborators}.


(** C6 as the code has it.  Every [!secret] makes the loader read
    [secrets.yaml] next to the current document, whatever has been read
    before; nothing ever enters [_SECRET_CACHE], which a load leaves as it
    found it, or empty when asked to clear the secrets. *)
Theorem secrets_file_is_read_at_every_lookup depth n v s fname clear_secrets vars :
  (exists more,
      reads (snd (construct_secret (_load_yaml_internal (S depth)) n v s))
      = reads s ++ [path_join (path_dirname (loader_name s)) SECRET_YAML] ++ more)
  /\ SECRET_CACHE (snd (construct_secret (_load_yaml_internal (S depth)) n v s))
     = SECRET_CACHE s
  /\ SECRET_CACHE (snd (load_yaml depth fname clear_secrets vars s))
     = (if clear_secrets then [] else SECRET_CACHE s).
Proof.
  split; [|split].
  - unfold construct_secret.
    rewrite (bind_run _ _ (_rel_path SECRET_YAML) _ s
               (path_join (path_dirname (loader_name s)) SECRET_YAML) s eq_refl).
    rewrite (bind_run _ _ copy_vars _ s (length (heap s))
               (set_heap (heap s ++ [deref s (loader_vars s)]) s) eq_refl).
    simpl _load_yaml_internal. unfold _load_yaml_internal_body, load_file.
    rewrite !bind_assoc_run.
    rewrite (bind_run _ _
               (modify (fun st => set_reads
                                    (reads st ++ [path_join (path_dirname (loader_name s))
                                                            SECRET_YAML]) st))
               _ (set_heap (heap s ++ [deref s (loader_vars s)]) s) tt
               (set_reads (reads s ++ [path_join (path_dirname (loader_name s)) SECRET_YAML])
                          (set_heap (heap s ++ [deref s (loader_vars s)]) s)) eq_refl).
    match goal with |- exists more, reads (snd (?m ?st)) = _ =>
      destruct (reads_extended m st) as [more Hm] end.
    + preserve; try apply _load_yaml_string_well_behaved;
        try apply _load_yaml_internal_well_behaved.
      apply well_behaved_register.
    + exists more. rewrite Hm. simpl. now rewrite <- app_assoc.
  - apply cache_preserved. apply construct_secret_well_behaved.
    apply _load_yaml_internal_well_behaved.
  - apply load_yaml_cache.
Qed.

End Scope.



(** Two [!secret] in one document: [secrets.yaml] is read once for each. *)
Lemma secrets_file_is_read_twice :
  let run := load_yaml (C := SecretExamples.with_files) 2 "main.yaml" true None Toy.initial in
  reads (snd run) = ["main.yaml"; "secrets.yaml"; "secrets.yaml"]
  /\ count_occ string_dec (reads (snd run)) "secrets.yaml" = 2
  /\ SECRET_CACHE (snd run) = [].
Proof. repeat split. Qed.

(** * Further properties of the loader and of the dumper *)

(** ** [!env_var]: the words of the payload *)










(** ** [!literal]: the document as it is written *)

Lemma set_disable_same s :
  disable_str_expansion s = true -> set_disable true s = s.
Proof. destruct s; simpl; intro H; subst; reflexivity. Qed.

Lemma set_disable_back s b :
  set_disable (disable_str_expansion s) (set_disable b s) = s.
Proof. destruct s; reflexivity. Qed.

Section Literal.
Context {C : Collaborators}.
Variable load : string -> option nat -> bool -> M value.

Lemma construct_tagged_str tag text mark :
  construct_tagged load (ScalarNode tag text mark) tag_str
  = construct_yaml_str (ScalarNode tag text mark).
Proof. reflexivity. Qed.

Lemma construct_tagged_seq tag items mark :
  construct_tagged load (SequenceNode tag items mark) tag_seq
  = construct_yaml_seq (SequenceNode tag items mark)
      (SequenceView (map (fun child => construct_tagged load child (node_tag child)) items)).
Proof. reflexivity. Qed.

Lemma construct_tagged_map tag items mark :
  construct_tagged load (MappingNode tag items mark) tag_map
  = construct_yaml_map (MappingNode tag items mark)
      (MappingView (Examples.entries_of load items)).
Proof. reflexivity. Qed.

(** With the expansion disabled a string is the text of its node. *)
Lemma construct_yaml_str_disabled tag text mark st :
  disable_str_expansion st = true ->
  construct_yaml_str (ScalarNode tag text mark) st = (Ok (VStr text), st).
Proof. intro H. unfold construct_yaml_str, bind, lift_result, gets. simpl. now rewrite H. Qed.

(** The key of a mapping is constructed with the expansion disabled. *)
Lemma key_is_text k st :
  scalar_key k = true ->
  disable_str_expansion st = true ->
  construct_tagged load k (if node_tag k =? tag_value then tag_str else node_tag k) st
  = (Ok (VStr (key_text k)), st).
Proof.
  destruct k as [tag text mark | |]; simpl scalar_key; try discriminate.
  intros Hk Hst. simpl node_tag. simpl key_text.
  destruct (tag =? tag_value) eqn:Ev.
  - rewrite construct_tagged_str. now apply construct_yaml_str_disabled.
  - simpl in Hk. rewrite orb_false_r in Hk. apply String.eqb_eq in Hk. subst tag.
    rewrite construct_tagged_str. now apply construct_yaml_str_disabled.
Qed.

Lemma scalar_key_not_merge k : scalar_key k = true -> (node_tag k =? tag_merge) = false.
Proof.
  destruct k as [tag text mark | |]; simpl; try discriminate.
  intro H. apply orb_true_iff in H. destruct H as [H | H]; apply String.eqb_eq in H; now subst.
Qed.

Lemma verbatim_no_marker n : flatten_item (verbatim n) = [verbatim n].
Proof. destruct n; reflexivity. Qed.

Lemma flatten_for_verbatim items : flatten_for (map verbatim items) = map verbatim items.
Proof.
  unfold flatten_for. induction items as [|n r IH]; [reflexivity|].
  simpl map. simpl flat_map. rewrite verbatim_no_marker, IH. reflexivity.
Qed.

Lemma sequence_verbatim items st :
  Forall (constructs_verbatim load) items ->
  disable_str_expansion st = true ->
  sequence (map (fun child => construct_tagged load child (node_tag child)) items) st
  = (Ok (map verbatim items), st).
Proof.
  intros H Hst. induction H as [|n r Hn Hr IH]; [reflexivity|].
  simpl. rewrite (bind_run _ _ _ _ st (verbatim n) st (Hn st Hst)).
  rewrite (bind_run _ _ _ _ st (map verbatim r) st IH). reflexivity.
Qed.

Lemma construct_yaml_seq_verbatim n0 items st :
  Forall (constructs_verbatim load) items ->
  disable_str_expansion st = true ->
  construct_yaml_seq n0
    (SequenceView (map (fun child => construct_tagged load child (node_tag child)) items)) st
  = (Ok (VList (map verbatim items)), st).
Proof.
  intros H Hst. unfold construct_yaml_seq, construct_sequence.
  rewrite (bind_run _ _ _ _ st (flatten_for (map verbatim items)) st).
  - now rewrite flatten_for_verbatim.
  - rewrite (bind_run _ _ _ _ st (map verbatim items) st); [reflexivity|].
    now apply sequence_verbatim.
Qed.

Lemma collect_verbatim n0 items :
  Forall (fun kv => scalar_key (fst kv) = true /\ constructs_verbatim load (snd kv)) items ->
  forall a st,
    disable_str_expansion st = true ->
    dict_keys (seen_keys a) = dict_keys (pairs a) ->
    NoDup (dict_keys (pairs a) ++ map (fun kv => key_text (fst kv)) items) ->
    exists seen,
      for_each (Examples.entries_of load items) (collect_entry n0) a st
      = (Ok (mk_acc (pairs a ++ map verbatim_pair items) (merge_pairs a) seen), st).
Proof.
  induction 1 as [|[k v] r [Hk Hv] Hr IH]; intros a st Hst Hseen Hnd.
  - exists (seen_keys a). simpl. rewrite app_nil_r. now destruct a.
  - simpl in Hk, Hv.
    assert (Hfresh : dict_get String.eqb (seen_keys a) (key_text k) = None).
    { apply (dict_get_None String.eqb String.eqb_eq). rewrite Hseen.
      intro Hin. simpl in Hnd. apply NoDup_remove_2 in Hnd. apply Hnd.
      apply in_or_app. now left. }
    set (a1 := mk_acc (pairs a ++ [(key_text k, verbatim v)]) (merge_pairs a)
                      (seen_keys a ++ [(key_text k, Some (node_start_mark k))])).
    assert (Hstep : collect_entry n0
                      (mk_entry (node_tag k) (node_start_mark k) (construct_tagged load k)
                                (node_start_mark v) (construct_tagged load v (node_tag v)))
                      a st = (Ok a1, st)).
    { unfold collect_entry. cbn [key_tag]. rewrite (scalar_key_not_merge k Hk).
      unfold collect_pair. cbn [key_tag key_mark key_construct value_construct].
      rewrite (bind_run _ _ (gets disable_str_expansion) _ st true st)
        by (unfold gets; now rewrite Hst).
      rewrite (bind_run _ _ (modify (set_disable true)) _ st tt st)
        by (unfold modify; now rewrite set_disable_same).
      rewrite (bind_run _ _ _ _ st (VStr (key_text k)) st (key_is_text k st Hk Hst)).
      rewrite (bind_run _ _ (modify (set_disable true)) _ st tt st)
        by (unfold modify; now rewrite set_disable_same).
      rewrite (bind_run _ _ _ _ st (verbatim v) st (Hv st Hst)).
      simpl. rewrite Hfresh.
      rewrite (dict_set_fresh String.eqb) by exact Hfresh.
      reflexivity. }
    destruct (IH a1 st Hst) as (seen & Hrest).
    + unfold a1. simpl. unfold dict_keys in *. rewrite !map_app. simpl. now rewrite Hseen.
    + unfold a1. simpl. unfold dict_keys. rewrite map_app. simpl.
      rewrite <- app_assoc. simpl.
      unfold dict_keys in Hnd. simpl in Hnd. exact Hnd.
    + exists seen. simpl for_each.
      rewrite (bind_run _ _ _ _ st a1 st Hstep). rewrite Hrest.
      unfold a1. simpl. now rewrite <- app_assoc.
Qed.

Lemma distinct_NoDup l : distinct l = true -> NoDup l.
Proof.
  induction l as [|x r IH]; simpl; intro H; [constructor|].
  apply andb_true_iff in H. destruct H as [Hx Hr]. constructor; [|now apply IH].
  intro Hin. apply mem_string_In in Hin. now rewrite Hin in Hx.
Qed.

Lemma verbatim_pair_keys items :
  dict_keys (map verbatim_pair items) = map (fun kv => key_text (fst kv)) items.
Proof.
  unfold dict_keys. rewrite map_map. apply map_ext. now intros [k v].
Qed.

Lemma construct_yaml_map_verbatim n0 items st :
  Forall (fun kv => scalar_key (fst kv) = true /\ constructs_verbatim load (snd kv)) items ->
  distinct (map (fun kv => key_text (fst kv)) items) = true ->
  disable_str_expansion st = true ->
  construct_yaml_map n0 (MappingView (Examples.entries_of load items)) st
  = (Ok (VDict (map verbatim_pair items)), st).
Proof.
  intros H Hd Hst. unfold construct_yaml_map, collect.
  destruct (collect_verbatim n0 items H (mk_acc [] [] []) st Hst eq_refl) as (seen & Hrun).
  - simpl. now apply distinct_NoDup.
  - rewrite (bind_run _ _ _ _ st _ st Hrun). simpl.
    unfold adopt. simpl. rewrite OrderedDict_distinct; [reflexivity|].
    rewrite verbatim_pair_keys. now apply distinct_NoDup.
Qed.

Lemma plain_entries items :
  Forall (fun kv => (plain (fst kv) = true -> constructs_verbatim load (fst kv))
                    /\ (plain (snd kv) = true -> constructs_verbatim load (snd kv))) items ->
  forallb (fun kv : node * node =>
             let (key_node, value_node) := kv in
             match key_node with
             | ScalarNode key_tag _ _ => (key_tag =? tag_str)
             | _ => false
             end && plain value_node) items = true ->
  Forall (fun kv => scalar_key (fst kv) = true /\ constructs_verbatim load (snd kv)) items.
Proof.
  induction 1 as [|[k v] r [_ Hv] Hr IH]; simpl; intro H; [constructor|].
  apply andb_true_iff in H. destruct H as [H Hrest].
  apply andb_true_iff in H. destruct H as [Hk Hp].
  constructor; [|now apply IH]. simpl. split; [|now apply Hv].
  destruct k; try discriminate. simpl. now rewrite Hk.
Qed.

Lemma plain_children items :
  Forall (fun n => plain n = true -> constructs_verbatim load n) items ->
  forallb plain items = true ->
  Forall (constructs_verbatim load) items.
Proof.
  induction 1 as [|n r Hn Hr IH]; simpl; intro H; [constructor|].
  apply andb_true_iff in H. destruct H as [Hp Hrest]. constructor; auto.
Qed.

Lemma verbatim_map items :
  map (fun kv : node * node =>
         let (key_node, value_node) := kv in (key_text key_node, verbatim value_node)) items
  = map verbatim_pair items.
Proof. reflexivity. Qed.

(** In a loader that does not expand, a document without directives is
    constructed as it is written. *)
Lemma plain_constructs_verbatim n : plain n = true -> constructs_verbatim load n.
Proof.
  induction n as [tag text mark | tag items mark IH | tag items mark IH]
    using node_nested_ind; intros Hp st Hst.
  - simpl in Hp. apply String.eqb_eq in Hp. subst tag. simpl node_tag.
    rewrite construct_tagged_str. now apply construct_yaml_str_disabled.
  - simpl in Hp. apply andb_true_iff in Hp. destruct Hp as [Ht Hc].
    apply String.eqb_eq in Ht. subst tag. simpl node_tag.
    rewrite construct_tagged_seq. simpl verbatim.
    apply construct_yaml_seq_verbatim; [|exact Hst]. now apply plain_children.
  - simpl in Hp. apply andb_true_iff in Hp. destruct Hp as [Hp Hd].
    apply andb_true_iff in Hp. destruct Hp as [Ht Hc].
    apply String.eqb_eq in Ht. subst tag. simpl node_tag.
    rewrite construct_tagged_map. simpl verbatim. rewrite verbatim_map.
    apply construct_yaml_map_verbatim; [|exact Hd|exact Hst]. now apply plain_entries.
Qed.

(** X2. Under [!literal] a document made of strings, sequences and mappings
    with string keys is constructed as it is written: every string, keys
    included, is the text of its node whatever the environment and the
    template engine, the order is the document's, and the loader is left in
    the state it was in, its expansion flag included. *)
Theorem literal_is_constructed_verbatim (n : node) (s : state) :
  plain n = true ->
  construct_object load (with_tag "!literal" n) s = (Ok (verbatim n), s).
Proof.
  intro Hp.
  assert (Hs1 : disable_str_expansion (set_disable true s) = true) by reflexivity.
  destruct n as [tag text mark | tag items mark | tag items mark].
  - change (construct_object load (with_tag "!literal" (ScalarNode tag text mark)) s)
      with (construct_literal (ScalarNode "!literal" text mark) (ScalarView text) s).
    unfold construct_literal.
    rewrite (bind_run _ _ (gets disable_str_expansion) _ s (disable_str_expansion s) s eq_refl).
    rewrite (bind_run _ _ (modify (set_disable true)) _ s tt (set_disable true s) eq_refl).
    rewrite (bind_run _ _ _ _ _ _ _
               (construct_yaml_str_disabled "!literal" text mark (set_disable true s) Hs1)).
    unfold bind, modify, ret. now rewrite set_disable_back.
  - simpl in Hp. apply andb_true_iff in Hp. destruct Hp as [_ Hc].
    change (construct_object load (with_tag "!literal" (SequenceNode tag items mark)) s)
      with (construct_literal (SequenceNode "!literal" items mark)
              (SequenceView (map (fun child => construct_tagged load child (node_tag child))
                                 items)) s).
    unfold construct_literal.
    rewrite (bind_run _ _ (gets disable_str_expansion) _ s (disable_str_expansion s) s eq_refl).
    rewrite (bind_run _ _ (modify (set_disable true)) _ s tt (set_disable true s) eq_refl).
    assert (Hi : Forall (constructs_verbatim load) items).
    { apply plain_children; [|exact Hc]. apply Forall_forall. intros x _.
      apply plain_constructs_verbatim. }
    rewrite (bind_run _ _ _ _ _ _ _
               (construct_yaml_seq_verbatim (SequenceNode "!literal" items mark) items
                  (set_disable true s) Hi Hs1)).
    unfold bind, modify, ret. now rewrite set_disable_back.
  - simpl in Hp. apply andb_true_iff in Hp. destruct Hp as [Hp Hd].
    apply andb_true_iff in Hp. destruct Hp as [_ Hc].
    change (construct_object load (with_tag "!literal" (MappingNode tag items mark)) s)
      with (construct_literal (MappingNode "!literal" items mark)
              (MappingView (Examples.entries_of load items)) s).
    unfold construct_literal.
    rewrite (bind_run _ _ (gets disable_str_expansion) _ s (disable_str_expansion s) s eq_refl).
    rewrite (bind_run _ _ (modify (set_disable true)) _ s tt (set_disable true s) eq_refl).
    assert (He : Forall (fun kv => scalar_key (fst kv) = true /\ constructs_verbatim load (snd kv))
                        items).
    { apply plain_entries; [|exact Hc]. apply Forall_forall. intros kv _.
      split; apply plain_constructs_verbatim. }
    rewrite (bind_run _ _ _ _ _ _ _
               (construct_yaml_map_verbatim (MappingNode "!literal" items mark) items
                  (set_disable true s) He Hd Hs1)).
    unfold bind, modify, ret. now rewrite set_disable_back.
Qed.

End Literal.

(** The templates of a literal block are kept, in keys and in values. *)
Lemma literal_example :
  construct_object (C := Examples.plain) (_load_yaml_internal (C := Examples.plain) 0)
    (MappingNode "!literal"
       [(Toy.str "{{ a }}", Toy.seq [Toy.str "{{ b }}"; Toy.str "c"])] Toy.mark0)
    Toy.initial
  = (Ok (VDict [("{{ a }}", VList [VStr "{{ b }}"; VStr "c"])]), Toy.initial).
Proof.
  exact (@literal_is_constructed_verbatim Examples.plain
           (_load_yaml_internal (C := Examples.plain) 0)
           (Toy.map_ [(Toy.str "{{ a }}", Toy.seq [Toy.str "{{ b }}"; Toy.str "c"])])
           Toy.initial eq_refl).
Defined.

(** ** [construct_yaml_map]: the keys of a mapping *)

Section Keys.
Context {C : Collaborators}.
Variable load : string -> option nat -> bool -> M value.




End Keys.


(** ** Nested documents are loaded with the expansion enabled *)

Section Nested.
Context {C : Collaborators}.
Variable load : string -> option nat -> bool -> M value.

Lemma construct_tagged_expanding n :
  construct_tagged load n = construct_tagged (fun fname vars _ => load fname vars false) n.
Proof.
  set (expanding := fun (fname : string) (vars : option nat) (_ : bool) =>
                      load fname vars false).
  induction n as [tag text mark | tag items mark IH | tag items mark IH]
    using node_nested_ind.
  - reflexivity.
  - assert (E : map (fun child => construct_tagged load child (node_tag child)) items
                = map (fun child => construct_tagged expanding child (node_tag child)) items).
    { apply map_ext_in. intros child Hin. rewrite Forall_forall in IH.
      now rewrite (IH child Hin). }
    change ((fun v tag' => construct_node load tag' (SequenceNode tag items mark) v)
              (SequenceView
                 (map (fun child => construct_tagged load child (node_tag child)) items))
            = (fun v tag' => construct_node expanding tag' (SequenceNode tag items mark) v)
                (SequenceView
                   (map (fun child => construct_tagged expanding child (node_tag child))
                        items))).
    rewrite E. reflexivity.
  - assert (E : Examples.entries_of load items = Examples.entries_of expanding items).
    { unfold Examples.entries_of. apply map_ext_in. intros [k v] Hin.
      rewrite Forall_forall in IH. destruct (IH (k, v) Hin) as [Ek Ev]. simpl in Ek, Ev.
      now rewrite Ek, Ev. }
    change ((fun v tag' => construct_node load tag' (MappingNode tag items mark) v)
              (MappingView (Examples.entries_of load items))
            = (fun v tag' => construct_node expanding tag' (MappingNode tag items mark) v)
                (MappingView (Examples.entries_of expanding items))).
    rewrite E. reflexivity.
Qed.

End Nested.

(** X7. The construction pass asks for a nested document, by [!include],
    [!secret] or one of the [!include_dir_...] directives, with the string
    expansion enabled only: what it constructs is what it constructs with a
    loader that expands whatever it is told, so that the expansion flag of
    the including loader, set by [!literal] or by the reading of the
    substitutions, does not reach an included file. *)
Theorem nested_documents_are_loaded_with_expansion {C : Collaborators}
        (load : string -> option nat -> bool -> M value) (n : node) :
  construct_object load n
  = construct_object (fun fname vars _ => load fname vars false) n.
Proof.
  unfold construct_object. now rewrite construct_tagged_expanding.
Qed.

(** ** [load_yaml]: what the entry point returns *)





(** ** [_find_files]: the files of an included directory *)

Section Files.
Context {C : Collaborators}.

Lemma _is_file_valid_spec name : _is_file_valid name = true <-> String.prefix "." name = false.
Proof. unfold _is_file_valid. apply negb_true_iff. Qed.

Lemma walk_found t :
  forall root path, In path (walk root t) <-> found root t path.
Proof.
  induction t as [files dirs IH] using dirtree_nested_ind. intros root path.
  rewrite Forall_forall in IH.
  simpl. rewrite in_app_iff, in_map_iff, in_flat_map. split.
  - intros [(b & Hb & Hin) | ([name sub] & Hin & Hw)].
    + apply filter_In in Hin. destruct Hin as [Hin Hv].
      apply andb_true_iff in Hv. destruct Hv as [Hv He].
      subst path. apply found_here; auto. now apply _is_file_valid_spec.
    + destruct (_is_file_valid name) eqn:E; [|destruct Hw].
      apply (IH _ Hin) in Hw. simpl in Hw.
      eapply found_below; eauto. now apply _is_file_valid_spec.
  - intro F. inversion F as [r fs ds basename Hin Hv He | r fs ds name sub p Hin Hv Hsub]; subst.
    + left. exists basename. split; [reflexivity|]. apply filter_In. split; [exact Hin|].
      apply andb_true_iff. split; [now apply _is_file_valid_spec | exact He].
    + right. exists (name, sub). split; [exact Hin|].
      rewrite (proj2 (_is_file_valid_spec name) Hv). now apply (IH _ Hin).
Qed.

(** X4. [_find_files] returns exactly the files under the directory whose
    name ends in [.yaml] and does not start with a dot, and that are reached
    through sub-directories none of which has a name that starts with a dot: a
    hidden directory is not entered, whatever it contains.  A directory that
    cannot be listed has no file. *)
Theorem find_files_skips_hidden_names (directory path : string) :
  In path (_find_files directory)
  <-> exists t, listdir directory = Some t /\ found directory t path.
Proof.
  unfold _find_files. destruct (listdir directory) as [t|].
  - rewrite walk_found. split.
    + intro F. now exists t.
    + intros (t' & E & F). now injection E as ->.
  - split; [intros [] | intros (t & E & _); discriminate].
Qed.

End Files.

(** ** [merge] on two mappings *)

Section MergeDict.
Context {C : Collaborators}.
Variable rec : value -> value -> value.

Lemma dict_set_app_present (A B : dict) k x :
  In k (dict_keys A) ->
  dict_set String.eqb (A ++ B) k x = dict_set String.eqb A k x ++ B.
Proof.
  induction A as [|[k0 v0] r IH]; simpl; [intros []|].
  destruct (k0 =? k) eqn:E; [reflexivity|].
  intros [H | H]; [apply String.eqb_neq in E; contradiction|]. now rewrite IH.
Qed.

Lemma merged_entry_other (P : dict) k v kv :
  fst kv <> k -> merged_entry rec (P ++ [(k, v)]) kv = merged_entry rec P kv.
Proof.
  intro N. unfold merged_entry. rewrite (dict_get_app String.eqb). simpl.
  apply not_eq_sym in N. apply String.eqb_neq in N. rewrite N.
  now destruct (dict_get String.eqb P (fst kv)).
Qed.

Lemma dict_keys_merged (P od : dict) :
  dict_keys (map (merged_entry rec P) od) = dict_keys od.
Proof. unfold dict_keys. rewrite map_map. reflexivity. Qed.

Lemma merged_set (P od : dict) k o v :
  NoDup (dict_keys od) ->
  dict_get String.eqb P k = None ->
  dict_get String.eqb od k = Some o ->
  dict_set String.eqb (map (merged_entry rec P) od) k (rec o v)
  = map (merged_entry rec (P ++ [(k, v)])) od.
Proof.
  intros Hnd HP. induction od as [|[k0 o0] r IH]; simpl; [discriminate|].
  inversion Hnd as [|? ? Hnotin Hnd']; subst.
  destruct (k0 =? k) eqn:E.
  - apply String.eqb_eq in E. subst k0. intro H. injection H as ->.
    f_equal.
    + unfold merged_entry. simpl. rewrite (dict_get_app String.eqb), HP. simpl.
      now rewrite String.eqb_refl.
    + apply map_ext_in. intros kv Hin. symmetry. apply merged_entry_other.
      intro Heq. apply Hnotin. subst k. unfold dict_keys. now apply in_map.
  - intro H. f_equal.
    + symmetry. apply merged_entry_other. simpl. now apply String.eqb_neq.
    + now apply IH.
Qed.

Lemma merge_dict_step_spec (od P : dict) k v :
  NoDup (dict_keys od) ->
  dict_get String.eqb P k = None ->
  merge_dict_step rec od (merged_mappings rec od P) (k, v)
  = merged_mappings rec od (P ++ [(k, v)]).
Proof.
  intros Hnd HP. unfold merge_dict_step, merged_mappings.
  rewrite filter_app. simpl. unfold dict_mem at 3.
  destruct (dict_get String.eqb od k) as [o|] eqn:E; simpl.
  - rewrite app_nil_r. rewrite dict_set_app_present.
    + now rewrite (merged_set P od k o v Hnd HP E).
    + rewrite dict_keys_merged. apply (dict_mem_In String.eqb String.eqb_eq).
      unfold dict_mem. now rewrite E.
  - rewrite (dict_set_fresh String.eqb).
    + rewrite <- app_assoc. f_equal. apply map_ext_in. intros kv Hin.
      symmetry. apply merged_entry_other. intro Heq.
      apply (dict_get_None String.eqb String.eqb_eq) in E. apply E.
      subst k. unfold dict_keys. now apply in_map.
    + apply (dict_get_None String.eqb String.eqb_eq). unfold dict_keys.
      rewrite map_app, in_app_iff. intros [H | H].
      * fold (dict_keys (map (merged_entry rec P) od)) in H. rewrite dict_keys_merged in H.
        apply (dict_get_None String.eqb String.eqb_eq) in E. contradiction.
      * apply (dict_get_None String.eqb String.eqb_eq) in HP. apply HP.
        apply in_map_iff in H. destruct H as (kv & Hk & Hin).
        apply filter_In in Hin. destruct Hin as [Hin _].
        subst k. unfold dict_keys. now apply in_map.
Qed.

Lemma merge_dict_loop (od nd : dict) :
  NoDup (dict_keys od) ->
  forall P, NoDup (dict_keys (P ++ nd)) ->
            fold_left (merge_dict_step rec od) nd (merged_mappings rec od P)
            = merged_mappings rec od (P ++ nd).
Proof.
  intro Hod. induction nd as [|[k v] r IH]; intros P Hnd; cbn [fold_left].
  - now rewrite app_nil_r.
  - assert (HP : dict_get String.eqb P k = None).
    { apply (dict_get_None String.eqb String.eqb_eq). intro Hin.
      unfold dict_keys in Hnd. rewrite map_app in Hnd. simpl in Hnd.
      apply NoDup_remove_2 in Hnd. apply Hnd. apply in_or_app. now left. }
    rewrite (merge_dict_step_spec od P k v Hod HP).
    replace (P ++ (k, v) :: r) with ((P ++ [(k, v)]) ++ r) by now rewrite <- app_assoc.
    apply IH. now rewrite <- app_assoc.
Qed.

Lemma merged_mappings_start (od : dict) : merged_mappings rec od [] = od.
Proof.
  unfold merged_mappings. simpl. rewrite app_nil_r.
  induction od as [|[k o] r IH]; simpl; [reflexivity | now rewrite IH].
Qed.

End MergeDict.

(** X5. [merge] on two mappings: the result has the keys of the old mapping
    in their order, each with its old value, or with the merge of its old
    value and the new one when the new mapping has the key, followed by the
    entries of the new mapping whose key the old mapping does not have, in
    their order. *)
Theorem merge_of_two_mappings {C : Collaborators} (od nd : dict) :
  NoDup (dict_keys od) ->
  NoDup (dict_keys nd) ->
  merge (VDict od) (VDict nd) = VDict (merged_mappings merge od nd)
  /\ dict_keys (merged_mappings merge od nd)
     = dict_keys od
       ++ filter (fun k => negb (dict_mem String.eqb od k)) (dict_keys nd).
Proof.
  intros Hod Hnd. split.
  - rewrite merge_unfold. simpl.
    rewrite <- (merged_mappings_start merge od) at 2.
    now rewrite (merge_dict_loop merge od nd Hod [] Hnd).
  - unfold merged_mappings, dict_keys. rewrite map_app, map_map. simpl. f_equal.
    clear. induction nd as [|[k v] r IH]; simpl; [reflexivity|].
    destruct (negb (dict_mem String.eqb od k)); simpl; now rewrite IH.
Qed.

(** The old mapping keeps [a] and the order; [b] is merged; [c] is new. *)
Lemma merge_of_two_mappings_example :
  merge (C := Examples.plain)
    (VDict [("a", VInt 1); ("b", VDict [("x", VInt 1)])])
    (VDict [("c", VInt 3); ("b", VDict [("y", VInt 2)])])
  = VDict [("a", VInt 1); ("b", VDict [("x", VInt 1); ("y", VInt 2)]); ("c", VInt 3)].
Proof.
  assert (N2 : forall a b : string, a <> b -> NoDup [a; b]).
  { intros a b N. constructor; [intros [H | []]; congruence | constructor; [intros [] | constructor]]. }
  exact (proj1 (@merge_of_two_mappings Examples.plain
                  [("a", VInt 1); ("b", VDict [("x", VInt 1)])]
                  [("c", VInt 3); ("b", VDict [("y", VInt 2)])]
                  (N2 "a" "b" ltac:(discriminate)) (N2 "c" "b" ltac:(discriminate)))).
Defined.

(** ** [dump]: no failure, block style *)

Section DumpStyle.
Context {C : Collaborators}.
Variable registry : list (string * string).





End DumpStyle.


(** ** [!for]: one construction of [repeat] for each item *)

Section ForLoop.
Context {C : Collaborators}.




End ForLoop.


(** ** [!include_dir_merge_list]: the files of a directory, concatenated *)

Section IncludeDir.
Context {C : Collaborators}.
Variable load : string -> option nat -> bool -> M value.



End IncludeDir.


(** ** [load_yaml]: the environments that exist are left alone *)

Section Frame.
Context {C : Collaborators}.

Lemma stable_from s s1 s2 :
  (heap s1 = heap s \/ heap s1 = heap s ++ [[]]) ->
  loader_name s1 = loader_name s ->
  reads s1 = reads s ->
  stable s1 s2 ->
  (forall a, a < length (heap s) -> deref s2 a = deref s a)
  /\ length (heap s) <= length (heap s2)
  /\ loader_name s2 = loader_name s
  /\ exists more, reads s2 = reads s ++ more.
Proof.
  intros Hh Hn Hr (L & D & _ & N & [more R]).
  assert (Hlen : length (heap s) <= length (heap s1)).
  { destruct Hh as [-> | ->]; [lia | rewrite length_app; lia]. }
  repeat split.
  - intros a Ha. rewrite D by lia. unfold deref.
    destruct Hh as [-> | ->]; [reflexivity | now apply app_nth1].
  - lia.
  - congruence.
  - exists more. congruence.
Qed.

(** X11. Whatever the document holds and however the load ends, [load_yaml]
    leaves every environment dictionary that existed before the call as it
    was, the dictionary passed as [vars] included: the loader only creates
    new dictionaries.  The name of the calling loader is unchanged, and the
    files already read stay read, in their order. *)
Theorem load_yaml_keeps_existing_environments (depth : nat) (fname : string)
        (clear_secrets : bool) (vars : option nat) (s : state) :
  (forall a, a < length (heap s) ->
             deref (snd (load_yaml depth fname clear_secrets vars s)) a = deref s a)
  /\ length (heap s) <= length (heap (snd (load_yaml depth fname clear_secrets vars s)))
  /\ loader_name (snd (load_yaml depth fname clear_secrets vars s)) = loader_name s
  /\ exists more, reads (snd (load_yaml depth fname clear_secrets vars s)) = reads s ++ more.
Proof.
  unfold load_yaml.
  destruct vars as [a|]; destruct clear_secrets.
  - rewrite (bind_run _ _ _ _ s a s eq_refl).
    rewrite (bind_run _ _ _ _ s tt (set_SECRET_CACHE [] (set_SECRET_VALUES [] s)) eq_refl).
    apply stable_from with (s1 := set_SECRET_CACHE [] (set_SECRET_VALUES [] s));
      [now left | reflexivity | reflexivity |].
    match goal with
    | |- stable ?s1 (snd (?m ?s1)) =>
        assert (G : preserving m) by (preserve; apply _load_yaml_internal_well_behaved);
        apply G
    end.
  - rewrite (bind_run _ _ _ _ s a s eq_refl).
    rewrite (bind_run _ _ _ _ s tt s eq_refl).
    apply stable_from with (s1 := s); [now left | reflexivity | reflexivity |].
    match goal with
    | |- stable ?s1 (snd (?m ?s1)) =>
        assert (G : preserving m) by (preserve; apply _load_yaml_internal_well_behaved);
        apply G
    end.
  - rewrite (bind_run _ _ _ _ s (length (heap s)) (set_heap (heap s ++ [[]]) s) eq_refl).
    rewrite (bind_run _ _ _ _ (set_heap (heap s ++ [[]]) s) tt
               (set_SECRET_CACHE [] (set_SECRET_VALUES [] (set_heap (heap s ++ [[]]) s)))
               eq_refl).
    apply stable_from
      with (s1 := set_SECRET_CACHE [] (set_SECRET_VALUES [] (set_heap (heap s ++ [[]]) s)));
      [now right | reflexivity | reflexivity |].
    match goal with
    | |- stable ?s1 (snd (?m ?s1)) =>
        assert (G : preserving m) by (preserve; apply _load_yaml_internal_well_behaved);
        apply G
    end.
  - rewrite (bind_run _ _ _ _ s (length (heap s)) (set_heap (heap s ++ [[]]) s) eq_refl).
    rewrite (bind_run _ _ _ _ (set_heap (heap s ++ [[]]) s) tt
               (set_heap (heap s ++ [[]]) s) eq_refl).
    apply stable_from with (s1 := set_heap (heap s ++ [[]]) s);
      [now right | reflexivity | reflexivity |].
    match goal with
    | |- stable ?s1 (snd (?m ?s1)) =>
        assert (G : preserving m) by (preserve; apply _load_yaml_internal_well_behaved);
        apply G
    end.
Qed.

End Frame.

(** ** [!for], [!if] and [!merge] in a loader that does not expand *)

Lemma construct_tagged_view {C : Collaborators}
      (load : string -> option nat -> bool -> M value) (n : node) (tag : string) :
  exists v, construct_tagged load n tag = construct_node load tag n v.
Proof. destruct n; eexists; reflexivity. Qed.

(** X12. In a loader whose string expansion is disabled, under [!literal] or
    while the substitutions are read, a node tagged [!for], [!if] or [!merge]
    constructs to null whatever it holds: its children are not constructed,
    no file is read and the state is left as it is. *)
Theorem directives_are_skipped_without_expansion {C : Collaborators}
        (load : string -> option nat -> bool -> M value) (n : node) (s : state) :
  disable_str_expansion s = true ->
  node_tag n = "!for" \/ node_tag n = "!if" \/ node_tag n = "!merge" ->
  construct_object load n s = (Ok VNone, s).
Proof.
  intros Hs Ht. unfold construct_object.
  destruct (construct_tagged_view load n (node_tag n)) as [v ->].
  destruct Ht as [-> | [-> | ->]].
  - change (construct_node load "!for" n v) with (construct_for n v).
    unfold construct_for, bind, gets. now rewrite Hs.
  - change (construct_node load "!if" n v) with (construct_if n v).
    unfold construct_if, bind, gets. now rewrite Hs.
  - change (construct_node load "!merge" n v) with (construct_merge n v).
    unfold construct_merge, bind, gets. now rewrite Hs.
Qed.

(** The loop over [1, 2] is not run. *)
Lemma skipped_for_example :
  construct_object (C := Examples.plain) (_load_yaml_internal (C := Examples.plain) 0)
    ScopeExamples.counting_for (set_disable true Toy.initial)
  = (Ok VNone, set_disable true Toy.initial).
Proof.
  exact (@directives_are_skipped_without_expansion Examples.plain
           (_load_yaml_internal (C := Examples.plain) 0)
           ScopeExamples.counting_for (set_disable true Toy.initial)
           eq_refl (or_introl eq_refl)).
Defined.

(** ** [!include]: the environment of the included document *)

Section Include.
Context {C : Collaborators}.
Variable load : string -> option nat -> bool -> M value.

(** X13. [!include] loads the file with an environment of its own: a new
    dictionary that holds the variables of the including document, in which
    the variables given under [vars] replace those of the same name and the
    others are added.  With a plain file name the new dictionary is a copy of
    the environment of the including document, and the file is taken
    relative to the directory of that document. *)
Theorem include_inherits_and_overrides (n : node) (entries : list entry) (file : string)
        (s : state) (path : string) (vars : dict) (s1 : state) :
  extract_file_vars n (MappingView entries) s = (Ok (path, vars), s1) ->
  NoDup (dict_keys vars) ->
  construct_include load n (MappingView entries) s
  = load path (Some (length (heap s1))) false
      (set_heap (heap s1 ++ [dict_update String.eqb (deref s1 (loader_vars s1)) vars]) s1)
  /\ (forall k,
         dict_get String.eqb (dict_update String.eqb (deref s1 (loader_vars s1)) vars) k
         = match dict_get String.eqb vars k with
           | Some v => Some v
           | None => dict_get String.eqb (deref s1 (loader_vars s1)) k
           end)
  /\ construct_include load n (ScalarView file) s
     = load (path_join (path_dirname (loader_name s)) file) (Some (length (heap s))) false
         (set_heap (heap s ++ [deref s (loader_vars s)]) s).
Proof.
  intros H ND. split; [|split].
  - unfold construct_include.
    rewrite (bind_run _ _ _ _ s (path, vars) s1 H). reflexivity.
  - intro k. now apply dict_update_get.
  - reflexivity.
Qed.

End Include.

(** The included file sees [a] as [two], [c] as [four] and [b] as [three]. *)
Lemma include_example :
  construct_include (C := Examples.plain) (_load_yaml_internal (C := Examples.plain) 1)
    IncludeExamples.include
    (MappingView (Examples.entries_of (C := Examples.plain)
                    (_load_yaml_internal (C := Examples.plain) 1) IncludeExamples.items))
    IncludeExamples.including
  = _load_yaml_internal (C := Examples.plain) 1 "child.yaml" (Some 1) false
      (set_heap [IncludeExamples.parent;
                 [("a", VStr "two"); ("c", VStr "four"); ("b", VStr "three")]]
         IncludeExamples.including).
Proof.
  refine (proj1 (@include_inherits_and_overrides Examples.plain
                   (_load_yaml_internal (C := Examples.plain) 1)
                   IncludeExamples.include
                   (Examples.entries_of (C := Examples.plain)
                      (_load_yaml_internal (C := Examples.plain) 1) IncludeExamples.items)
                   "child.yaml" IncludeExamples.including "child.yaml"
                   [("a", VStr "two"); ("b", VStr "three")] IncludeExamples.including
                   eq_refl _)).
  repeat constructor; simpl; intuition discriminate.
Defined.

(** ** Loading a document without expansion and dumping it again *)

Section RoundTrip.
Context {C : Collaborators}.
Variable registry : list (string * string).

Lemma represent_text text :
  redacted registry (VStr text) = false ->
  represent_stringify registry (VStr text) = Ok (RScalar tag_str text None).
Proof. unfold represent_stringify. now intros ->. Qed.

Lemma sequence_result_map {A B : Type} (f : A -> result B) (g : A -> B) (l : list A) :
  Forall (fun x => f x = Ok (g x)) l -> sequence_result (map f l) = Ok (map g l).
Proof.
  induction 1 as [|x r Hx _ IH]; simpl; [reflexivity|]. now rewrite Hx, IH.
Qed.

Lemma Forall_flat_map_each {A B : Type} (P : B -> Prop) (f : A -> list B) (l : list A) :
  Forall P (flat_map f l) -> Forall (fun x => Forall P (f x)) l.
Proof.
  induction l as [|x r IH]; simpl; intro H; [constructor|].
  apply Forall_app in H. destruct H as [H1 H2]. constructor; auto.
Qed.

Lemma represent_verbatim n :
  Forall (fun t => redacted registry (VStr t) = false) (texts n) ->
  represent_data registry (Some false) (verbatim n) = Ok (rnode_of n).
Proof.
  induction n as [tag text mark | tag items mark IH | tag items mark IH]
    using node_nested_ind; intro H.
  - simpl. apply represent_text. now inversion H.
  - simpl in *. unfold represent_sequence. rewrite map_map.
    rewrite (sequence_result_map _ rnode_of); [reflexivity|].
    apply Forall_flat_map_each in H. rewrite Forall_forall in *.
    intros x Hx. apply IH; auto.
  - simpl in *. unfold represent_mapping. rewrite !map_map.
    rewrite (sequence_result_map _
               (fun kv : node * node =>
                  let (key_node, value_node) := kv in
                  (RScalar tag_str (key_text key_node) None, rnode_of value_node)));
      [reflexivity|].
    apply Forall_flat_map_each in H. rewrite Forall_forall in *.
    intros [k v] Hx. specialize (H _ Hx). simpl in H. inversion H as [|? ? Hk Hv]; subst.
    destruct (IH _ Hx) as [_ IHv]. simpl in IHv.
    unfold pair_result. simpl. rewrite (represent_text _ Hk), (IHv Hv). reflexivity.
Qed.

End RoundTrip.

(** X14. A document of strings, sequences and mappings that is loaded by a
    loader that does not expand, as under [!literal] or while the
    substitutions are read, and dumped again is represented node for node as
    it was written: the same texts, keys included, in the same order, in block
    style, provided that none of its texts is registered as a secret.  The
    state is left as it is. *)
Theorem plain_document_round_trip {C : Collaborators}
        (load : string -> option nat -> bool -> M value) (n : node) (s : state) :
  plain n = true ->
  disable_str_expansion s = true ->
  Forall (fun t => redacted (SECRET_VALUES s) (VStr t) = false) (texts n) ->
  (exists v, construct_object load n s = (Ok v, s)
             /\ represent_data (SECRET_VALUES s) (Some false) v = Ok (rnode_of n))
  /\ (v <- construct_object load n ;; dump v) s = (Ok (emit (rnode_of n)), s).
Proof.
  intros Hp Hs Ht.
  pose proof (plain_constructs_verbatim load n Hp s Hs) as Hrun.
  fold (construct_object load n) in Hrun. split.
  - exists (verbatim n). split; [exact Hrun|]. now apply represent_verbatim.
  - rewrite (bind_run _ _ _ _ s (verbatim n) s Hrun).
    unfold dump, bind, gets, lift_result, ret.
    now rewrite (represent_verbatim (SECRET_VALUES s) n Ht).
Qed.

(** The templates come back as they were written. *)
Lemma plain_round_trip_example :
  exists v,
    construct_object (C := Examples.plain) (_load_yaml_internal (C := Examples.plain) 0)
      (Toy.map_ [(Toy.str "{{ a }}", Toy.seq [Toy.str "{{ b }}"; Toy.str "c"])])
      (set_disable true Toy.initial) = (Ok v, set_disable true Toy.initial)
    /\ represent_data (C := Examples.plain) [] (Some false) v
       = Ok (RMapping tag_map
               [(RScalar tag_str "{{ a }}" None,
                 RSequence tag_seq [RScalar tag_str "{{ b }}" None; RScalar tag_str "c" None]
                           (Some false))]
               (Some false)).
Proof.
  refine (proj1 (@plain_document_round_trip Examples.plain
                   (_load_yaml_internal (C := Examples.plain) 0)
                   (Toy.map_ [(Toy.str "{{ a }}", Toy.seq [Toy.str "{{ b }}"; Toy.str "c"])])
                   (set_disable true Toy.initial) eq_refl eq_refl _)).
  repeat constructor.
Defined.

(** ** [!if]: the condition, then one branch *)

Section If.
Context {C : Collaborators}.
Variable depth : nat.

(** A key without template is the word itself. *)
Lemma word_key_constructs word mark st :
  (forall vars, expand_str word vars = Expanded word) ->
  disable_str_expansion st = false ->
  construct_tagged (_load_yaml_internal depth) (ScalarNode tag_str word mark) tag_str st
  = (Ok (VStr word), st).
Proof.
  intros Hw Hst.
  change (construct_tagged (_load_yaml_internal depth) (ScalarNode tag_str word mark) tag_str)
    with (construct_yaml_str (ScalarNode tag_str word mark)).
  unfold construct_yaml_str, bind, lift_result, gets, get_vars. simpl.
  rewrite Hst, Hw. reflexivity.
Qed.

Lemma if_fields_condition mark c st cv st1 acc :
  (forall vars, expand_str "condition" vars = Expanded "condition") ->
  disable_str_expansion st = false ->
  construct_object (_load_yaml_internal depth) c st = (Ok cv, st1) ->
  if_fields (mk_entry tag_str mark
               (construct_tagged (_load_yaml_internal depth)
                  (ScalarNode tag_str "condition" mark))
               (node_start_mark c)
               (construct_tagged (_load_yaml_internal depth) c (node_tag c))) acc st
  = (Ok (cv, snd (fst acc), snd acc), st1).
Proof.
  intros Hw Hst Hc. destruct acc as [[c0 t0] e0]. unfold if_fields.
  cbn [key_tag key_construct value_construct].
  rewrite (bind_run _ _ _ _ st (VStr "condition") st (word_key_constructs _ mark st Hw Hst)).
  change (eq_str (VStr "condition") "condition") with true.
  change (eq_str (VStr "condition") "then") with false.
  change (eq_str (VStr "condition") "else") with false.
  cbv iota. unfold construct_object in Hc.
  rewrite (bind_run _ _ _ _ st cv st1 Hc). reflexivity.
Qed.

Lemma if_fields_then mark t st acc :
  (forall vars, expand_str "then" vars = Expanded "then") ->
  disable_str_expansion st = false ->
  if_fields (mk_entry tag_str mark
               (construct_tagged (_load_yaml_internal depth) (ScalarNode tag_str "then" mark))
               (node_start_mark t)
               (construct_tagged (_load_yaml_internal depth) t (node_tag t))) acc st
  = (Ok (fst (fst acc), Some (construct_object (_load_yaml_internal depth) t), snd acc), st).
Proof.
  intros Hw Hst. destruct acc as [[c0 t0] e0]. unfold if_fields.
  cbn [key_tag key_construct value_construct].
  rewrite (bind_run _ _ _ _ st (VStr "then") st (word_key_constructs _ mark st Hw Hst)).
  reflexivity.
Qed.

Lemma if_fields_else mark e st acc :
  (forall vars, expand_str "else" vars = Expanded "else") ->
  disable_str_expansion st = false ->
  if_fields (mk_entry tag_str mark
               (construct_tagged (_load_yaml_internal depth) (ScalarNode tag_str "else" mark))
               (node_start_mark e)
               (construct_tagged (_load_yaml_internal depth) e (node_tag e))) acc st
  = (Ok (fst (fst acc), snd (fst acc), Some (construct_object (_load_yaml_internal depth) e)),
     st).
Proof.
  intros Hw Hst. destruct acc as [[c0 t0] e0]. unfold if_fields.
  cbn [key_tag key_construct value_construct].
  rewrite (bind_run _ _ _ _ st (VStr "else") st (word_key_constructs _ mark st Hw Hst)).
  reflexivity.
Qed.

(** X15. [!if] constructs its condition and then only the branch that the
    truth value of the condition selects, in the state the condition has
    left: the other branch is not constructed, so that nothing it holds is
    read, registered or raised.  Without [else] a false condition gives null;
    without [then] the directive fails once the condition is constructed,
    whatever its value. *)
Theorem if_constructs_only_the_chosen_branch (c t e : node) (kc kt ke mark : Mark)
        (s : state) (cv : value) (s1 : state) :
  (forall vars, expand_str "condition" vars = Expanded "condition") ->
  (forall vars, expand_str "then" vars = Expanded "then") ->
  (forall vars, expand_str "else" vars = Expanded "else") ->
  disable_str_expansion s = false ->
  construct_object (_load_yaml_internal depth) c s = (Ok cv, s1) ->
  construct_object (_load_yaml_internal depth)
    (MappingNode "!if" [(ScalarNode tag_str "condition" kc, c);
                        (ScalarNode tag_str "then" kt, t);
                        (ScalarNode tag_str "else" ke, e)] mark) s
  = (if truthy cv
     then construct_object (_load_yaml_internal depth) t s1
     else construct_object (_load_yaml_internal depth) e s1)
  /\ construct_object (_load_yaml_internal depth)
       (MappingNode "!if" [(ScalarNode tag_str "condition" kc, c);
                           (ScalarNode tag_str "then" kt, t)] mark) s
     = (if truthy cv
        then construct_object (_load_yaml_internal depth) t s1
        else (Ok VNone, s1))
  /\ construct_object (_load_yaml_internal depth)
       (MappingNode "!if" [(ScalarNode tag_str "condition" kc, c);
                           (ScalarNode tag_str "else" ke, e)] mark) s
     = (Raise (marked MarkedYAMLError "missing then value" mark), s1).
Proof.
  intros Hc Ht He Hs Hcv.
  assert (Hs1 : disable_str_expansion s1 = false).
  { destruct (construct_object_well_behaved (_load_yaml_internal depth)
                (_load_yaml_internal_well_behaved depth) c) as [_ R].
    destruct (R _ _ _ Hcv) as [_ D]. now rewrite D. }
  assert (Hrun : forall items,
             construct_object (_load_yaml_internal depth) (MappingNode "!if" items mark) s
             = construct_if (MappingNode "!if" items mark)
                 (MappingView (Examples.entries_of (_load_yaml_internal depth) items)) s)
    by reflexivity.
  rewrite !Hrun. unfold construct_if.
  rewrite !(bind_run _ _ (gets disable_str_expansion) _ s false s)
    by (unfold gets; now rewrite Hs).
  cbn [unpack_failure view_entries Examples.entries_of map for_each node_tag node_start_mark].
  repeat split.
  - rewrite (bind_run _ _ _ _ s (cv, Some (construct_object (_load_yaml_internal depth) t),
                                 Some (construct_object (_load_yaml_internal depth) e)) s1).
    + destruct (truthy cv); reflexivity.
    + rewrite (bind_run _ _ _ _ s _ s1 (if_fields_condition kc c s cv s1 _ Hc Hs Hcv)).
      rewrite (bind_run _ _ _ _ s1 _ s1 (if_fields_then kt t s1 _ Ht Hs1)).
      rewrite (bind_run _ _ _ _ s1 _ s1 (if_fields_else ke e s1 _ He Hs1)).
      reflexivity.
  - rewrite (bind_run _ _ _ _ s (cv, Some (construct_object (_load_yaml_internal depth) t),
                                 None) s1).
    + destruct (truthy cv); reflexivity.
    + rewrite (bind_run _ _ _ _ s _ s1 (if_fields_condition kc c s cv s1 _ Hc Hs Hcv)).
      rewrite (bind_run _ _ _ _ s1 _ s1 (if_fields_then kt t s1 _ Ht Hs1)).
      reflexivity.
  - rewrite (bind_run _ _ _ _ s (cv, None,
                                 Some (construct_object (_load_yaml_internal depth) e)) s1).
    + reflexivity.
    + rewrite (bind_run _ _ _ _ s _ s1 (if_fields_condition kc c s cv s1 _ Hc Hs Hcv)).
      rewrite (bind_run _ _ _ _ s1 _ s1 (if_fields_else ke e s1 _ He Hs1)).
      reflexivity.
Qed.

End If.

(** The condition is 0: [then], whose variable is not set, is not constructed. *)
Lemma if_example :
  construct_object (C := Examples.plain) (_load_yaml_internal (C := Examples.plain) 0)
    (MappingNode "!if"
       [(Toy.str "condition", Toy.int "0");
        (Toy.str "then", ScalarNode "!env_var" "MISSING" Toy.mark0);
        (Toy.str "else", Toy.str "no")] Toy.mark0) Toy.initial
  = (Ok (VStr "no"), Toy.initial).
Proof.
  exact (proj1 (@if_constructs_only_the_chosen_branch Examples.plain 0
                  (Toy.int "0") (ScalarNode "!env_var" "MISSING" Toy.mark0) (Toy.str "no")
                  Toy.mark0 Toy.mark0 Toy.mark0 Toy.mark0 Toy.initial (VInt 0) Toy.initial
                  (fun vars => eq_refl) (fun vars => eq_refl) (fun vars => eq_refl)
                  eq_refl eq_refl)).
Defined.

(** ** [!include_dir_named]: one entry for each file name *)

Section IncludeDirNamed.
Context {C : Collaborators}.
Variable load : string -> option nat -> bool -> M value.



End IncludeDirNamed.


(** ** [load_yaml]: the errors that come out *)

Section Errors.
Context {C : Collaborators}.
Hypothesis read_errors :
  forall fname e, read_config_file fname = Raise e -> is_YAMLError e = false.




End Errors.


